(** * Executor utilities of texar-pytorch: a shallow embedding

    Source: [src/texar/torch/run/executor_utils.py].

    The development follows the Python module top to bottom:
    - Python objects, exceptions and the ordered dictionary;
    - the registry normaliser [_to_dict] with its two naming policies
      [to_dict] and [to_metric_dict], on [str] names as annotated and, in
      module [dyn], on names of every type;
    - the instance resolver [to_instance];
    - [ProgressTracker] (binary64 arithmetic through [SpecFloat]);
    - [MetricList] with [_compare_metrics], [__eq__] and [__gt__];
    - [to_list], [update_metrics] and the terminal colours.

    Definitions come first, theorems afterwards. *)

From Stdlib Require Import ZArith String List.
From Stdlib Require Floats.SpecFloat.
From stdpp Require Import base option list strings gmap pretty.

(** ** Exceptions and results *)

(** The Python exceptions the module can raise.  [ValueError] carries the
    message text since the module tells its failures apart by message only.
    [IllTyped] is not a Python exception: in the embedding of [_to_dict]
    with [str] keys it marks a pair whose name is not a [str], which is
    outside the annotation [Tuple[str, T]].  The interpreter accepts such a
    pair; module [dyn] embeds [_to_dict] for names of every type and never
    raises [IllTyped]. *)
Inductive exn : Type :=
| ValueError (msg : string)
| KeyError (key : string)
| AttributeError (msg : string)
| TypeError (msg : string)
| ZeroDivisionError
| OverflowError
| IllTyped.

Inductive result (A : Type) : Type :=
| Ok (a : A)
| Raise (e : exn).
Arguments Ok {A} a.
Arguments Raise {A} e.

#[global] Instance result_ret : MRet result := fun _ a => Ok a.
#[global] Instance result_bind : MBind result := fun _ _ f r =>
  match r with
  | Ok a => f a
  | Raise e => Raise e
  end.

Definition is_ok {A} (r : result A) : bool :=
  match r with Ok _ => true | Raise _ => false end.

(** ** Python objects *)

(** The [Metric] interface of [texar.torch.run.metric], which is not part of
    this file of the repository: the attributes and methods that
    [executor_utils] uses.  [metric_type] is the identity of the class
    object [type(metric)], [metric_module] and [metric_class] are the
    [__module__] and [__name__] of that class; [V] is the domain of metric
    values. *)
Record Metric (V : Type) : Type := {
  metric_type : N;
  metric_module : string;
  metric_class : string;
  pred_name : string;
  label_name : option string;
  value : V;
  better : V → V → option bool
}.
Arguments metric_type {V} _.
Arguments metric_module {V} _.
Arguments metric_class {V} _.
Arguments pred_name {V} _.
Arguments label_name {V} _.
Arguments value {V} _.
Arguments better {V} _ _ _.

(** The run-time values the functions inspect with [isinstance] and
    [is None].  [ODict false] is a plain [dict], [ODict true] an
    [OrderedDict]; both keep their entries in insertion order. *)
#[warnings="-register-all"] Inductive obj (V : Type) : Type :=
| ONone
| OInt (n : Z)
| OStr (s : string)
| OTuple (xs : list (obj V))
| OList (xs : list (obj V))
| ODict (ordered : bool) (kvs : list (string * obj V))
| OMetric (m : Metric V).
Arguments ONone {V}.
Arguments OInt {V} n.
Arguments OStr {V} s.
Arguments OTuple {V} xs.
Arguments OList {V} xs.
Arguments ODict {V} ordered kvs.
Arguments OMetric {V} m.

(** [x.__class__.__name__] *)
Definition class_name {V} (x : obj V) : string :=
  match x with
  | ONone => "NoneType"
  | OInt _ => "int"
  | OStr _ => "str"
  | OTuple _ => "tuple"
  | OList _ => "list"
  | ODict false _ => "dict"
  | ODict true _ => "OrderedDict"
  | OMetric m => metric_class m
  end.

(** The type name CPython puts into the messages of [AttributeError] and
    [TypeError]: the [__name__] of a class defined in Python, the dotted
    name of [OrderedDict]. *)
Definition tp_name {V} (x : obj V) : string :=
  match x with
  | ODict true _ => "collections.OrderedDict"
  | _ => class_name x
  end.

(** [str(type(x))], as an f-string renders [{type(x)}] *)
Definition type_repr {V} (x : obj V) : string :=
  match x with
  | ODict true _ => "<class 'collections.OrderedDict'>"
  | OMetric m => "<class '" +:+ metric_module m +:+ "." +:+ metric_class m +:+ "'>"
  | _ => "<class '" +:+ class_name x +:+ "'>"
  end.

(** [isinstance(x, Metric)] *)
Definition is_Metric {V} (x : obj V) : bool :=
  match x with OMetric _ => true | _ => false end.

(** ** Ordered dictionaries

    An [OrderedDict] is its list of entries in insertion order.  Assigning
    to a key that is present keeps the position of the entry, assigning to
    a new key appends; [del] of an absent key raises [KeyError]. *)
Module od.
Section od.
Context {A : Type}.

Definition keys (d : list (string * A)) : list string := d.*1.
Definition values (d : list (string * A)) : list A := d.*2.

Fixpoint get (k : string) (d : list (string * A)) : option A :=
  match d with
  | [] => None
  | (k', v) :: d' => if decide (k = k') then Some v else get k d'
  end.

Fixpoint set (k : string) (v : A) (d : list (string * A)) : list (string * A) :=
  match d with
  | [] => [(k, v)]
  | (k', v') :: d' =>
      if decide (k = k') then (k, v) :: d' else (k', v') :: set k v d'
  end.

Fixpoint remove (k : string) (d : list (string * A)) : list (string * A) :=
  match d with
  | [] => []
  | (k', v) :: d' => if decide (k = k') then d' else (k', v) :: remove k d'
  end.

(** [d[k]] *)
Definition getitem (k : string) (d : list (string * A)) : result A :=
  match get k d with
  | Some v => Ok v
  | None => Raise (KeyError k)
  end.

(** [del d[k]] *)
Definition delitem (k : string) (d : list (string * A)) : result (list (string * A)) :=
  match get k d with
  | Some _ => Ok (remove k d)
  | None => Raise (KeyError k)
  end.
End od.
End od.

(** ** The registry normaliser *)

Section normalizer.
Context {V : Type}.
Variable unambiguous_name_fn : string → obj V → nat → result string.
Variable default_name_fn : nat → obj V → result string.

(** The loop variables [ret_dict] and [counter]. *)
Record loop_state : Type := {
  ret_dict : list (string * obj V);
  counter : gmap string nat
}.

(** [counter.update([name])] *)
Definition counter_update (name : string) (c : gmap string nat) : gmap string nat :=
  <[name := S (default 0 (c !! name))]> c.

(** Lines 61-64: [name, item = item] for a tuple, the default name
    otherwise. *)
Definition name_item (idx : nat) (item : obj V) : result (string * obj V) :=
  match item with
  | OTuple xs =>
      match xs with
      | [OStr name; v] => Ok (name, v)
      | [_; _] => Raise IllTyped
      | [] | [_] =>
          Raise (ValueError ("not enough values to unpack (expected 2, got "
                             +:+ pretty (length xs) +:+ ")"))
      | _ => Raise (ValueError "too many values to unpack (expected 2)")
      end
  | _ => name ← default_name_fn idx item; Ok (name, item)
  end.

(** Lines 65-74: one iteration of the [for] loop. *)
Definition loop_body (st : loop_state) (idx : nat) (item : obj V) : result loop_state :=
  '(name, item) ← name_item idx item;
  match counter st !! name with
  | None =>
      Ok {| ret_dict := od.set name item (ret_dict st);
            counter := counter_update name (counter st) |}
  | Some cnt =>
      d ← (if decide (cnt = 1) then
             prev_item ← od.getitem name (ret_dict st);
             k1 ← unambiguous_name_fn name prev_item 1;
             od.delitem name (od.set k1 prev_item (ret_dict st))
           else Ok (ret_dict st));
      k ← unambiguous_name_fn name item (cnt + 1);
      Ok {| ret_dict := od.set k item d;
            counter := counter_update name (counter st) |}
  end.

(** [for idx, item in enumerate(xs)], started at index [idx]. *)
Fixpoint loop (st : loop_state) (idx : nat) (xs : list (obj V)) : result loop_state :=
  match xs with
  | [] => Ok st
  | item :: xs' => st' ← loop_body st idx item; loop st' (S idx) xs'
  end.

Definition init_state : loop_state := {| ret_dict := []; counter := ∅ |}.

Definition _to_dict (ds : obj V) : result (list (string * obj V)) :=
  match ds with
  | ONone => Ok []
  | ODict _ kvs => Ok kvs
  | OList xs => st ← loop init_state 0 xs; Ok (ret_dict st)
  | _ => st ← loop init_state 0 [ds]; Ok (ret_dict st)
  end.

(** The keys an iteration assigns to in [ret_dict], in program order
    (ghost code: it reads the state, it does not change it). *)
Definition written (st : loop_state) (idx : nat) (item : obj V) : list string :=
  match name_item idx item with
  | Ok (name, item) =>
      match counter st !! name with
      | None => [name]
      | Some cnt =>
          (if decide (cnt = 1) then
             match od.get name (ret_dict st) with
             | Some prev_item =>
                 match unambiguous_name_fn name prev_item 1 with
                 | Ok k1 => [k1]
                 | Raise _ => []
                 end
             | None => []
             end
           else []) ++
          match unambiguous_name_fn name item (cnt + 1) with
          | Ok k => [k]
          | Raise _ => []
          end
      end
  | Raise _ => []
  end.

Fixpoint written_keys (st : loop_state) (idx : nat) (xs : list (obj V)) : list string :=
  match xs with
  | [] => []
  | item :: xs' =>
      written st idx item ++
      match loop_body st idx item with
      | Ok st' => written_keys st' (S idx) xs'
      | Raise _ => []
      end
  end.

(** The number of items of [xs] that go by the name [name], the first
    item having index [idx]. *)
Fixpoint occurrences (name : string) (idx : nat) (xs : list (obj V)) : nat :=
  match xs with
  | [] => 0
  | item :: xs' =>
      match name_item idx item with
      | Ok (n, _) => if decide (n = name) then 1 else 0
      | Raise _ => 0
      end + occurrences name (S idx) xs'
  end.

(** The naming functions complete on every argument. *)
Definition total_naming : Prop :=
  (∀ n v c, is_ok (unambiguous_name_fn n v c)) ∧ (∀ i v, is_ok (default_name_fn i v)).

(** The three ways an iteration can complete: the state it leaves and
    the keys it assigned to. *)
Definition step_case (st : loop_state) (name : string) (v : obj V)
    (st' : loop_state) (w : list string) : Prop :=
  counter st' = counter_update name (counter st) ∧
  ((counter st !! name = None ∧
    ret_dict st' = od.set name v (ret_dict st) ∧ w = [name])
   ∨ (∃ prev k1 k2,
        counter st !! name = Some 1 ∧
        od.get name (ret_dict st) = Some prev ∧
        unambiguous_name_fn name prev 1 = Ok k1 ∧
        unambiguous_name_fn name v 2 = Ok k2 ∧
        ret_dict st' = od.set k2 v (od.remove name (od.set k1 prev (ret_dict st))) ∧
        w = [k1; k2])
   ∨ (∃ cnt k,
        counter st !! name = Some cnt ∧ cnt ≠ 1 ∧
        unambiguous_name_fn name v (cnt + 1) = Ok k ∧
        ret_dict st' = od.set k v (ret_dict st) ∧ w = [k])).

(** Well-formed loop states: keys are unique, no name is counted zero
    times, and a name counted once is a key. *)
Definition wf (st : loop_state) : Prop :=
  NoDup (od.keys (ret_dict st)) ∧
  ∀ n c, counter st !! n = Some c →
         1 ≤ c ∧ (c = 1 → n ∈ od.keys (ret_dict st)).

(** The items of an input spec, and the keys the pass assigns to while it
    normalises the spec (none for [None] and for a mapping, which the loop
    never sees). *)
Definition items_of (ds : obj V) : list (obj V) :=
  match ds with
  | ONone => []
  | ODict _ kvs => od.values kvs
  | OList xs => xs
  | _ => [ds]
  end.

Definition assigned_keys (ds : obj V) : list string :=
  match ds with
  | ONone | ODict _ _ => []
  | OList xs => written_keys init_state 0 xs
  | _ => written_keys init_state 0 [ds]
  end.
End normalizer.
Arguments loop_state V : clear implicits.

(** A spec the annotated type admits: a mapping has each key once, and an
    item that is a tuple is a [(name, item)] pair with a [str] name. *)
Definition pair_ok {V} (item : obj V) : Prop :=
  match item with
  | OTuple [OStr _; _] => True
  | OTuple _ => False
  | _ => True
  end.

Definition valid_spec {V} (ds : obj V) : Prop :=
  match ds with
  | ONone => True
  | ODict _ kvs => NoDup (od.keys kvs)
  | OList xs => Forall pair_ok xs
  | _ => pair_ok ds
  end.

(** *** The two naming policies *)

Section policies.
Context {V : Type}.

(** The two closures of [to_dict]. *)
Definition generic_unambiguous_name_fn (name : string) (unused_item : obj V) (cnt : nat)
  : result string :=
  Ok (name +:+ "." +:+ pretty cnt).

Definition generic_default_name_fn (default_name : option string)
    (idx : nat) (unused_item : obj V) : result string :=
  match default_name with
  | Some s => Ok s
  | None => Ok (pretty idx)
  end.

Definition to_dict (xs : obj V) (default_name : option string)
  : result (list (string * obj V)) :=
  _to_dict generic_unambiguous_name_fn (generic_default_name_fn default_name) xs.

(** The two closures of [to_metric_dict]. *)
(** [metric.pred_name] and [metric.label_name] exist on a [Metric] only. *)
Definition metric_unambiguous_name_fn (name : string) (metric : obj V) (unused_cnt : nat)
  : result string :=
  match metric with
  | OMetric m =>
      let new_name := name +:+ "_" +:+ pred_name m in
      Ok (match label_name m with
          | Some l => new_name +:+ "_" +:+ l
          | None => new_name
          end)
  | _ => Raise (AttributeError ("'" +:+ tp_name metric
                                +:+ "' object has no attribute 'pred_name'"))
  end.

Definition metric_default_name_fn (unused_idx : nat) (metric : obj V) : result string :=
  Ok (class_name metric).

(** Lines 104-107: the first value that is not a [Metric] raises. *)
Fixpoint check_metrics (vs : list (obj V)) : result unit :=
  match vs with
  | [] => Ok tt
  | metric :: vs' =>
      if is_Metric metric then check_metrics vs'
      else Raise (ValueError ("All metrics must be of class Metric, but found "
                              +:+ type_repr metric))
  end.

Definition to_metric_dict (metrics : obj V) : result (list (string * obj V)) :=
  match metrics with
  | ODict false _ => Raise (ValueError "Metrics dictionary must be of type OrderedDict")
  | _ =>
      metric_dict ← _to_dict metric_unambiguous_name_fn metric_default_name_fn metrics;
      _ ← check_metrics (od.values metric_dict);
      Ok metric_dict
  end.
End policies.

(** ** The instance resolver *)

(** A class as [to_instance] uses it: how an f-string renders it and which
    objects are its instances ([isinstance(x, typ)]). *)
Record pytype (V : Type) : Type := {
  type_str : string;
  isinstance_of : obj V → bool
}.
Arguments type_str {V} _.
Arguments isinstance_of {V} _ _.

Section to_instance.
Context {V : Type}.
(** [texar.torch.utils.utils.get_instance] and the rendering of an object
    in an f-string are taken as parameters. *)
Variable get_instance : obj V → list (string * obj V) → list string → result (obj V).
Variable str : obj V → string.

(** [{**a, **b}] *)
Definition dict_merge (a b : list (string * obj V)) : list (string * obj V) :=
  foldl (fun acc kv => od.set kv.1 kv.2 acc) a b.

Definition to_instance (typ : pytype V) (instance : obj V) (modules : list string)
    (extra_kwargs : option (list (string * obj V))) : result (obj V) :=
  match instance with
  | ONone => Ok ONone
  | _ =>
      instance ←
        match instance with
        | ODict _ kvs =>
            base ← match od.get "kwargs" kvs with
                   | None => Ok []
                   | Some (ODict _ kw) => Ok kw
                   | Some x => Raise (TypeError ("'" +:+ class_name x
                                                 +:+ "' object is not a mapping"))
                   end;
            let kwargs := dict_merge base (default [] extra_kwargs) in
            ty ← od.getitem "type" kvs;
            get_instance ty kwargs modules
        | _ => Ok instance
        end;
      if isinstance_of typ instance then Ok instance
      else Raise (ValueError ("The instance " +:+ str instance
                              +:+ " is not of type " +:+ type_str typ))
  end.
End to_instance.

(** ** Binary64 arithmetic of Python numbers *)

Module pyfloat.
Import SpecFloat.

Definition prec : Z := 53.
Definition emax : Z := 1024.

(** A Python [float]. *)
Definition float : Type := spec_float.

(** An [int] as an exact, not yet rounded, operand. *)
Definition exact (n : Z) : spec_float :=
  match n with
  | Z0 => S754_zero false
  | Zpos p => S754_finite false p 0
  | Zneg p => S754_finite true p 0
  end.

(** [float(n)] for an [int] within range. *)
Definition of_int (n : Z) : float := binary_normalize prec emax n 0 false.

(** [a / b] on two [int]s: the correctly rounded quotient. *)
Definition int_truediv (a b : Z) : result float :=
  if decide (b = 0%Z) then Raise ZeroDivisionError
  else match SFdiv prec emax (exact a) (exact b) with
       | S754_infinity _ => Raise OverflowError
       | q => Ok q
       end.

(** [x * n] for a [float] and an [int] that converts without overflow. *)
Definition mul_int (x : float) (n : Z) : float := SFmul prec emax x (of_int n).
End pyfloat.

(** ** ProgressTracker *)

(** [start_time] holds the wall clock and serves [speed] only; neither is
    part of the model. *)
Module ProgressTracker.
Record t : Type := {
  size : option Z;
  n_examples : Z
}.

Definition __init__ (size : option Z) : t :=
  {| size := size; n_examples := 0 |}.

Definition add (self : t) (n : Z) : t :=
  {| size := size self; n_examples := n_examples self + n |}.

Definition progress (self : t) : result (option pyfloat.float) :=
  match size self with
  | None => Ok None
  | Some sz =>
      q ← pyfloat.int_truediv (n_examples self) sz;
      Ok (Some (pyfloat.mul_int q 100))
  end.
End ProgressTracker.

(** ** MetricList *)

(** Python's [==] on metric values. *)
Class PyEq (V : Type) : Type := py_eq : V → V → bool.

#[global] Instance Z_py_eq : PyEq Z := Z.eqb.

Module MetricList.
Section MetricList.
Context {V : Type} `{PyEq V}.

Record t : Type := {
  metrics : list (string * Metric V);
  values : gmap string V
}.

(** The argument [other: Any] of the comparisons. *)
Inductive any : Type :=
| IsMetricList (ml : t)
| NotMetricList (o : obj V).

(** [{name: metric.value() for name, metric in metrics.items()}] *)
Definition current_values (ms : list (string * Metric V)) : gmap string V :=
  foldl (fun acc nm => <[nm.1 := value nm.2]> acc) ∅ ms.

Definition __init__ (metrics : list (string * Metric V)) (vals : option (gmap string V)) : t :=
  match vals with
  | None => {| metrics := metrics; values := current_values metrics |}
  | Some vs => {| metrics := metrics; values := vs |}
  end.

(** [type(a) is type(b)]: identity of the two class objects. *)
Definition same_type (a b : Metric V) : bool :=
  bool_decide (metric_type a = metric_type b).

(** [d[name]] on a value mapping *)
Definition getvalue (name : string) (d : gmap string V) : result V :=
  match d !! name with
  | Some v => Ok v
  | None => Raise (KeyError name)
  end.

Definition different_base_metrics : exn :=
  ValueError "Cannot compare two metric lists with different base metrics".

(** Lines 198-202: the loop over [zip(...)]; [zip] stops at the end of
    the shorter registry. *)
Fixpoint check_pairs (ps : list ((string * Metric V) * (string * Metric V))) : result unit :=
  match ps with
  | [] => Ok tt
  | ((name, metric), (other_name, other_metric)) :: ps' =>
      if bool_decide (name ≠ other_name) || negb (same_type metric other_metric)
      then Raise different_base_metrics
      else check_pairs ps'
  end.

Definition _compare_metrics (self : t) (other : any) : result unit :=
  match other with
  | NotMetricList _ =>
      Raise (ValueError "Cannot compare to an object not of type MetricList")
  | IsMetricList o => check_pairs (zip (metrics self) (metrics o))
  end.

(** [other.values]; only a [MetricList] gets past [_compare_metrics]. *)
Definition values_of (other : any) : result (gmap string V) :=
  match other with
  | IsMetricList o => Ok (values o)
  | NotMetricList x =>
      Raise (AttributeError ("'" +:+ class_name x +:+ "' object has no attribute 'values'"))
  end.

(** [all(a[name] == b[name] for name in names)], left to right, stopping
    at the first [False]. *)
Fixpoint all_equal (a b : gmap string V) (names : list string) : result bool :=
  match names with
  | [] => Ok true
  | name :: names' =>
      x ← getvalue name a;
      y ← getvalue name b;
      if py_eq x y then all_equal a b names' else Ok false
  end.

Definition __eq__ (self : t) (other : any) : result bool :=
  _ ← _compare_metrics self other;
  ovals ← values_of other;
  all_equal (values self) ovals (od.keys (metrics self)).

(** Lines 214-218. *)
Fixpoint first_better (a b : gmap string V) (ms : list (string * Metric V)) : result bool :=
  match ms with
  | [] => Ok false
  | (name, metric) :: ms' =>
      x ← getvalue name a;
      y ← getvalue name b;
      match better metric x y with
      | Some cmp => Ok cmp
      | None => first_better a b ms'
      end
  end.

Definition __gt__ (self : t) (other : any) : result bool :=
  _ ← _compare_metrics self other;
  ovals ← values_of other;
  first_better (values self) ovals (metrics self).

(** The shape of a registry: its keys in order, each with the concrete
    class of its metric. *)
Definition shape (ms : list (string * Metric V)) : list (string * N) :=
  (fun nm => (nm.1, metric_type nm.2)) <$> ms.

(** The metric of an entry ties on the values the two snapshots hold
    under its name. *)
Definition ties (a b : gmap string V) (nm : string * Metric V) : Prop :=
  ∃ x y, a !! nm.1 = Some x ∧ b !! nm.1 = Some y ∧ better nm.2 x y = None.
End MetricList.
End MetricList.

(** ** Sample metrics

    Two metrics over integer values for the examples below: one that
    prefers the larger value, as the [better] of a metric with
    [higher_is_better] does, and one that never tells two values apart. *)
Module samples.
Definition larger_is_better (cur prev : Z) : option bool :=
  if (prev <? cur)%Z then Some true
  else if (cur <? prev)%Z then Some false
  else None.

Definition accuracy : Metric Z :=
  {| metric_type := 1%N;
     metric_module := "texar.torch.run.metric.classification";
     metric_class := "Accuracy";
     pred_name := "preds"; label_name := Some "label";
     value := 0%Z; better := larger_is_better |}.

Definition tying : Metric Z :=
  {| metric_type := 2%N;
     metric_module := "texar.torch.run.metric.summary";
     metric_class := "Average";
     pred_name := "loss"; label_name := None;
     value := 0%Z; better := fun _ _ => None |}.

(** A sample [add]: it takes predictions alone, or predictions with as
    many labels, and raises otherwise. *)
Definition paired_add (m : Metric Z) (pred : list (obj Z)) (label : option (list (obj Z)))
  : result unit :=
  match label with
  | Some l =>
      if decide (length pred = length l) then Ok tt
      else Raise (ValueError "predictions and labels differ in length")
  | None => Ok tt
  end.
End samples.

(** ** to_list *)

Definition to_list {V} (xs : obj V) : list (obj V) :=
  match xs with
  | OList l => l
  | ONone => []
  | _ => [xs]
  end.

(** The [(name, value)] pairs the loop of [_to_dict] reads off the items
    of [xs], the first item having index [idx]. *)
Fixpoint named_items {V} (default_name_fn : nat → obj V → result string)
    (idx : nat) (xs : list (obj V)) : list (string * obj V) :=
  match xs with
  | [] => []
  | item :: xs' =>
      match name_item default_name_fn idx item with
      | Ok p => p :: named_items default_name_fn (S idx) xs'
      | Raise _ => []
      end
  end.

(** [isinstance(item, tuple)] *)
Definition is_tuple {V} (item : obj V) : bool :=
  match item with OTuple _ => true | _ => false end.

(** The name the metric policy gives a metric on a collision. *)
Definition metric_unambiguous_name {V} (name : string) (m : Metric V) : string :=
  match label_name m with
  | Some l => (name +:+ "_" +:+ pred_name m) +:+ "_" +:+ l
  | None => name +:+ "_" +:+ pred_name m
  end.

(** [better] of every metric of [ms] answers the swapped question with the
    opposite answer, and ties both ways or neither. *)
Definition antisymmetric_better {V} (ms : list (string * Metric V)) : Prop :=
  Forall (fun nm : string * Metric V =>
            ∀ x y, better nm.2 y x = negb <$> better nm.2 x y) ms.

(** ** update_metrics *)

Module update.
Section update_metrics.
Context {V : Type}.

(** An entry of the model output or of the batch: a [torch.Tensor], known
    here by what its [tolist()] returns, or any other object. *)
Inductive field : Type :=
| Tensor (tolist : obj V)
| Plain (o : obj V).

(** [metric.add(pred_val, label_val)] belongs to the metric classes, which
    are not part of this file of the repository: how a call ends, by
    returning or by raising, is a parameter. *)
Variable metric_add : Metric V → list (obj V) → option (list (obj V)) → result unit.

(** A call [metric.add(pred_val, label_val)] that returned, on the metric
    registered as [call_metric]. *)
Record add_call : Type := {
  call_metric : string;
  call_pred : list (obj V);
  call_label : option (list (obj V))
}.

(** Lines 231-233 and 241-243: [tolist()] on a tensor, then [to_list]. *)
Definition as_list (x : field) : list (obj V) :=
  to_list (match x with Tensor content => content | Plain o => o end).

Definition missing_pred (metric_name : string) (metric : Metric V) : exn :=
  ValueError ("Return dictionary from model does not contain '" +:+ pred_name metric
              +:+ "' entry, which was required for metric '" +:+ metric_name +:+ "'").

Definition missing_label (metric_name l : string) : exn :=
  ValueError ("Data batch does not contain '" +:+ l
              +:+ "' entry, which was required for metric '" +:+ metric_name +:+ "'").

(** Lines 234-245: the label values of one metric. *)
Definition label_of (batch : gmap string field) (metric_name : string) (metric : Metric V)
  : result (option (list (obj V))) :=
  match label_name metric with
  | Some l =>
      match batch !! l with
      | Some label_val => Ok (Some (as_list label_val))
      | None => Raise (missing_label metric_name l)
      end
  | None => Ok None
  end.

(** The function returns nothing; its effect is the sequence of [add]
    calls that returned, paired here with how the run ended.  An exception
    of [add] is not caught (line 246). *)
Fixpoint update_metrics (return_dict batch : gmap string field)
    (metrics : list (string * Metric V)) : list add_call * result unit :=
  match metrics with
  | [] => ([], Ok tt)
  | (metric_name, metric) :: rest =>
      match return_dict !! pred_name metric with
      | None => ([], Raise (missing_pred metric_name metric))
      | Some pred_val =>
          match label_of batch metric_name metric with
          | Raise e => ([], Raise e)
          | Ok label_val =>
              match metric_add metric (as_list pred_val) label_val with
              | Raise e => ([], Raise e)
              | Ok _ =>
                  let run := update_metrics return_dict batch rest in
                  ({| call_metric := metric_name; call_pred := as_list pred_val;
                      call_label := label_val |} :: run.1, run.2)
              end
          end
      end
  end.

(** The call [update_metrics] makes for one metric when its fields are
    there, and how that call ends. *)
Definition call_for (return_dict batch : gmap string field) (nm : string * Metric V)
  : option add_call :=
  match return_dict !! pred_name nm.2, label_of batch nm.1 nm.2 with
  | Some pred_val, Ok label_val =>
      Some {| call_metric := nm.1; call_pred := as_list pred_val; call_label := label_val |}
  | _, _ => None
  end.

(** The fields a metric reads are there: its predictions in the model
    output and, when it has a label name, its labels in the batch. *)
Definition fields_present (return_dict batch : gmap string field) (nm : string * Metric V)
  : Prop :=
  is_Some (return_dict !! pred_name nm.2)
  ∧ ∀ l, label_name nm.2 = Some l → is_Some (batch !! l).

Definition add_outcome (nm : string * Metric V) (c : add_call) : result unit :=
  metric_add nm.2 (call_pred c) (call_label c).

(** The metric finds its fields and its [add] returns. *)
Definition updated (return_dict batch : gmap string field) (nm : string * Metric V)
  : Prop :=
  ∃ c, call_for return_dict batch nm = Some c ∧ add_outcome nm c = Ok tt.
End update_metrics.
End update.

(** ** Terminal colours *)

Module term.
Definition ESC : string := String (Ascii.ascii_of_nat 27) "".
Definition CR : string := String (Ascii.ascii_of_nat 13) "".

Definition CLEAR_LINE : string := ESC +:+ "[2K" +:+ CR.
Definition RESET_CODE : string := ESC +:+ "[0m".
Definition COLOR_CODE : list (string * string) :=
  [("red", ESC +:+ "[31m");
   ("green", ESC +:+ "[32m");
   ("yellow", ESC +:+ "[33m");
   ("blue", ESC +:+ "[94m");
   ("magenta", ESC +:+ "[35m");
   ("cyan", ESC +:+ "[36m");
   ("gray", ESC +:+ "[37m");
   ("grey", ESC +:+ "[37m")].

(** [str.lower()] on the bytes of an ASCII string; bytes above 127 are
    left alone. *)
Definition lower_ascii (c : Ascii.ascii) : Ascii.ascii :=
  let n := Ascii.nat_of_ascii c in
  if (65 <=? n) && (n <=? 90) then Ascii.ascii_of_nat (n + 32) else c.

Fixpoint lower (s : string) : string :=
  match s with
  | EmptyString => EmptyString
  | String c s' => String (lower_ascii c) (lower s')
  end.

Definition color (s col : string) : result string :=
  code ← od.getitem (lower col) COLOR_CODE;
  Ok (code +:+ s +:+ RESET_CODE).

(** The names of the palette, and the strings on which [lower] is
    [str.lower()]. *)
Definition palette : list string :=
  ["red"; "green"; "yellow"; "blue"; "magenta"; "cyan"; "gray"; "grey"].

Definition ascii_only (s : string) : Prop :=
  Forall (fun c => Ascii.nat_of_ascii c < 128) (String.list_ascii_of_string s).
End term.

(** ** The normaliser on arbitrary names

    [name_item] above follows the annotation [Tuple[str, T]].  The code
    itself does not test the name of a pair: it uses it as a dictionary
    key, whatever it is.  This module embeds [_to_dict] once more with
    names that are arbitrary objects. *)

#[global] Instance result_fmap : FMap result := fun _ _ f r =>
  match r with
  | Ok a => Ok (f a)
  | Raise e => Raise e
  end.

Module dyn.
Section dyn.
Context {V : Type}.
(** [id(m)] of a metric object, which hashes and compares by identity, and
    [repr(x)], which [KeyError] shows; both are parameters. *)
Variable object_id : Metric V → N.
Variable repr : obj V → string.
Variable unambiguous_name_fn : obj V → obj V → nat → result (obj V).
Variable default_name_fn : nat → obj V → result (obj V).

(** [hash(x)] raises for a list, a dict and a tuple that holds one: the
    type name of the first part that cannot be hashed. *)
Fixpoint unhashable (x : obj V) : option string :=
  match x with
  | OList _ => Some "list"
  | ODict false _ => Some "dict"
  | ODict true _ => Some "collections.OrderedDict"
  | OTuple xs =>
      (fix go (xs : list (obj V)) : option string :=
         match xs with
         | [] => None
         | y :: ys =>
             match unhashable y with
             | Some t => Some t
             | None => go ys
             end
         end) xs
  | _ => None
  end.

Definition hash_check (x : obj V) : result unit :=
  match unhashable x with
  | Some t => Raise (TypeError ("unhashable type: '" +:+ t +:+ "'"))
  | None => Ok tt
  end.

(** [x == y] on objects that can be hashed. *)
Fixpoint key_eq (x y : obj V) : bool :=
  match x, y with
  | ONone, ONone => true
  | OInt a, OInt b => bool_decide (a = b)
  | OStr a, OStr b => bool_decide (a = b)
  | OTuple xs, OTuple ys =>
      (fix go (xs ys : list (obj V)) : bool :=
         match xs, ys with
         | [], [] => true
         | a :: xs', b :: ys' => key_eq a b && go xs' ys'
         | _, _ => false
         end) xs ys
  | OMetric a, OMetric b => bool_decide (object_id a = object_id b)
  | _, _ => false
  end.

(** Dictionaries with such keys, in insertion order; an assignment to a key
    that is present keeps the key object that is there. *)
Fixpoint get {A} (k : obj V) (d : list (obj V * A)) : option A :=
  match d with
  | [] => None
  | (k', v) :: d' => if key_eq k k' then Some v else get k d'
  end.

Fixpoint set {A} (k : obj V) (v : A) (d : list (obj V * A)) : list (obj V * A) :=
  match d with
  | [] => [(k, v)]
  | (k', v') :: d' => if key_eq k k' then (k', v) :: d' else (k', v') :: set k v d'
  end.

Fixpoint remove {A} (k : obj V) (d : list (obj V * A)) : list (obj V * A) :=
  match d with
  | [] => []
  | (k', v) :: d' => if key_eq k k' then d' else (k', v) :: remove k d'
  end.

Definition getitem {A} (k : obj V) (d : list (obj V * A)) : result A :=
  match get k d with
  | Some v => Ok v
  | None => Raise (KeyError (repr k))
  end.

Definition delitem {A} (k : obj V) (d : list (obj V * A)) : result (list (obj V * A)) :=
  match get k d with
  | Some _ => Ok (remove k d)
  | None => Raise (KeyError (repr k))
  end.

Record loop_state : Type := {
  ret_dict : list (obj V * obj V);
  counter : list (obj V * nat)
}.

(** [counter.update([name])] *)
Definition counter_update (name : obj V) (c : list (obj V * nat)) : list (obj V * nat) :=
  set name (S (default 0 (get name c))) c.

(** Lines 61-64. *)
Definition name_item (idx : nat) (item : obj V) : result (obj V * obj V) :=
  match item with
  | OTuple xs =>
      match xs with
      | [name; v] => Ok (name, v)
      | [] | [_] =>
          Raise (ValueError ("not enough values to unpack (expected 2, got "
                             +:+ pretty (length xs) +:+ ")"))
      | _ => Raise (ValueError "too many values to unpack (expected 2)")
      end
  | _ => name ← default_name_fn idx item; Ok (name, item)
  end.

(** Lines 65-74; every use of an object as a key hashes it first. *)
Definition loop_body (st : loop_state) (idx : nat) (item : obj V) : result loop_state :=
  '(name, item) ← name_item idx item;
  _ ← hash_check name;
  match get name (counter st) with
  | None =>
      Ok {| ret_dict := set name item (ret_dict st);
            counter := counter_update name (counter st) |}
  | Some cnt =>
      d ← (if decide (cnt = 1) then
             prev_item ← getitem name (ret_dict st);
             k1 ← unambiguous_name_fn name prev_item 1;
             _ ← hash_check k1;
             delitem name (set k1 prev_item (ret_dict st))
           else Ok (ret_dict st));
      k ← unambiguous_name_fn name item (cnt + 1);
      _ ← hash_check k;
      Ok {| ret_dict := set k item d;
            counter := counter_update name (counter st) |}
  end.

Fixpoint loop (st : loop_state) (idx : nat) (xs : list (obj V)) : result loop_state :=
  match xs with
  | [] => Ok st
  | item :: xs' => st' ← loop_body st idx item; loop st' (S idx) xs'
  end.

Definition init_state : loop_state := {| ret_dict := []; counter := [] |}.

Definition _to_dict (ds : obj V) : result (list (obj V * obj V)) :=
  match ds with
  | ONone => Ok []
  | ODict _ kvs => Ok ((fun kv => (OStr kv.1, kv.2)) <$> kvs)
  | OList xs => st ← loop init_state 0 xs; Ok (ret_dict st)
  | _ => st ← loop init_state 0 [ds]; Ok (ret_dict st)
  end.
End dyn.
Arguments loop_state V : clear implicits.

(** A registry with [str] keys, as a registry of this module. *)
Definition of_registry {V} (r : list (string * obj V)) : list (obj V * obj V) :=
  (fun kv => (OStr kv.1, kv.2)) <$> r.
End dyn.

(** The states of the two loops that stand for each other. *)
Definition same_state {V} (object_id : Metric V → N)
    (st : loop_state V) (std : dyn.loop_state V) : Prop :=
  dyn.ret_dict std = dyn.of_registry (ret_dict st)
  ∧ ∀ n, dyn.get object_id (OStr n) (dyn.counter std) = counter st !! n.

(** * Properties *)

(** ** Ordered dictionaries *)

#[local] Set Warnings "-clear-no-such-hyp".

Section od_facts.
Context {A : Type}.
Implicit Types (k : string) (v : A) (d : list (string * A)).

Local Ltac od_ind d :=
  induction d as [|[? ?] d IH]; intros; simpl in *;
  repeat (case_decide; simpl in *); simplify_eq; auto.

Lemma od_get_set_eq k v d : od.get k (od.set k v d) = Some v.
Proof. od_ind d. Qed.

Lemma od_get_set_ne k k' v d : k ≠ k' → od.get k' (od.set k v d) = od.get k' d.
Proof. intros Hne. od_ind d; congruence. Qed.

Lemma od_get_None k d : od.get k d = None ↔ k ∉ od.keys d.
Proof.
  unfold od.keys. induction d as [|[k' v'] d IH]; simpl.
  - split; [intros _; apply not_elem_of_nil | done].
  - case_decide; subst; rewrite not_elem_of_cons.
    + split; [done | by intros [? _]].
    + rewrite IH. split; [auto | by intros [_ ?]].
Qed.

Lemma od_get_Some k d : is_Some (od.get k d) ↔ k ∈ od.keys d.
Proof.
  rewrite <- not_eq_None_Some, od_get_None.
  split; [apply dec_stable | auto].
Qed.

Lemma od_set_fresh k v d : k ∉ od.keys d → od.set k v d = d ++ [(k, v)].
Proof.
  unfold od.keys. induction d as [|[k' v'] d IH]; simpl; [done|].
  rewrite not_elem_of_cons. intros [? ?]. case_decide; [done|]. by rewrite IH.
Qed.

Lemma od_keys_set_present k v d : k ∈ od.keys d → od.keys (od.set k v d) = od.keys d.
Proof.
  unfold od.keys. induction d as [|[k' v'] d IH]; simpl.
  - by intros ?%elem_of_nil.
  - case_decide; subst; simpl; [done|].
    rewrite elem_of_cons. intros [?|?]; [done|]. f_equal. auto.
Qed.

Lemma od_keys_set k v d :
  od.keys (od.set k v d) = if decide (k ∈ od.keys d) then od.keys d else od.keys d ++ [k].
Proof.
  case_decide.
  - by apply od_keys_set_present.
  - rewrite od_set_fresh by done. unfold od.keys. by rewrite fmap_app.
Qed.

Lemma od_elem_of_keys_set k k' v d :
  k' ∈ od.keys (od.set k v d) ↔ k' = k ∨ k' ∈ od.keys d.
Proof.
  rewrite od_keys_set. case_decide.
  - naive_solver.
  - rewrite elem_of_app, list_elem_of_singleton. naive_solver.
Qed.

Lemma od_NoDup_set k v d : NoDup (od.keys d) → NoDup (od.keys (od.set k v d)).
Proof.
  intros Hd. rewrite od_keys_set. case_decide; [done|].
  apply NoDup_app. split_and!; [done| |apply NoDup_singleton].
  intros x Hx ->%list_elem_of_singleton. done.
Qed.

Lemma od_length_set k v d :
  length (od.set k v d) = if decide (k ∈ od.keys d) then length d else S (length d).
Proof.
  transitivity (length (od.keys (od.set k v d)));
    [unfold od.keys; by rewrite length_fmap|].
  rewrite od_keys_set.
  case_decide; unfold od.keys; rewrite ?length_app, !length_fmap; simpl; lia.
Qed.

Lemma od_elem_of_keys_remove k k' d :
  k' ∈ od.keys (od.remove k d) → k' ∈ od.keys d.
Proof.
  unfold od.keys. induction d as [|[k0 v0] d IH]; simpl; [done|].
  case_decide; simpl; rewrite ?elem_of_cons; naive_solver.
Qed.

Lemma od_elem_of_keys_remove_ne k k' d :
  k' ≠ k → k' ∈ od.keys d → k' ∈ od.keys (od.remove k d).
Proof.
  unfold od.keys. intros Hne. induction d as [|[k0 v0] d IH]; simpl; [done|].
  case_decide; simpl; rewrite ?elem_of_cons; naive_solver.
Qed.

Lemma od_not_elem_of_keys_remove k d :
  NoDup (od.keys d) → k ∉ od.keys (od.remove k d).
Proof.
  unfold od.keys. induction d as [|[k0 v0] d IH]; simpl.
  - intros _. apply not_elem_of_nil.
  - rewrite NoDup_cons. intros [? ?]. case_decide; subst; simpl; [done|].
    rewrite not_elem_of_cons. auto.
Qed.

Lemma od_NoDup_remove k d : NoDup (od.keys d) → NoDup (od.keys (od.remove k d)).
Proof.
  induction d as [|[k0 v0] d IH]; simpl; [done|].
  unfold od.keys in *. simpl. rewrite NoDup_cons. intros [Hk Hd].
  case_decide; simpl; [done|]. apply NoDup_cons. split; [|auto].
  intros Hin. apply Hk. by eapply od_elem_of_keys_remove.
Qed.

Lemma od_length_remove k d :
  k ∈ od.keys d → S (length (od.remove k d)) = length d.
Proof.
  unfold od.keys. induction d as [|[k0 v0] d IH]; simpl.
  - by intros ?%elem_of_nil.
  - rewrite elem_of_cons. intros Hin.
    destruct (decide (k = k0)); simpl; [done|].
    f_equal. apply IH. by destruct Hin.
Qed.

Lemma od_get_remove_ne k k' d : k ≠ k' → od.get k' (od.remove k d) = od.get k' d.
Proof. intros Hne. od_ind d; congruence. Qed.

Lemma od_get_remove_eq k d : NoDup (od.keys d) → od.get k (od.remove k d) = None.
Proof. intros Hd. apply od_get_None. by apply od_not_elem_of_keys_remove. Qed.
End od_facts.

(** ** The loop of the normaliser *)

Section normalizer_facts.
Context {V : Type}.
Variable u : string → obj V → nat → result string.
Variable d : nat → obj V → result string.
Implicit Types (st : loop_state V) (item v : obj V) (xs : list (obj V)).

Lemma loop_body_Ok st idx item st' :
  loop_body u d st idx item = Ok st' →
  ∃ name v, name_item d idx item = Ok (name, v) ∧
            step_case u st name v st' (written u d st idx item).
Proof.
  unfold loop_body, written.
  destruct (name_item d idx item) as [[name v]|e]; simpl; [|done].
  intros Hst. exists name, v. split; [done|]. unfold step_case.
  destruct (counter st !! name) as [cnt|] eqn:Hc.
  - destruct (decide (cnt = 1)) as [->|Hne].
    + unfold od.getitem, od.delitem in Hst.
      destruct (od.get name (ret_dict st)) as [prev|] eqn:Hprev; simpl in Hst; [|done].
      destruct (u name prev 1) as [k1|] eqn:Hk1; simpl in Hst; [|done].
      destruct (od.get name (od.set k1 prev (ret_dict st))); simpl in Hst; [|done].
      destruct (u name v 2) as [k2|] eqn:Hk2; simpl in Hst; [|done].
      injection Hst as <-. simpl. split; [done|]. right; left.
      exists prev, k1, k2. by rewrite Hk2.
    + simpl in Hst.
      destruct (u name v (cnt + 1)) as [k|] eqn:Hk; simpl in Hst; [|done].
      injection Hst as <-. simpl. split; [done|]. right; right.
      by exists cnt, k.
  - injection Hst as <-. simpl. split; [done|]. by left.
Qed.

Lemma loop_app st idx xs ys :
  loop u d st idx (xs ++ ys) =
  st' ← loop u d st idx xs; loop u d st' (idx + length xs) ys.
Proof.
  revert st idx. induction xs as [|x xs IH]; intros st idx; simpl.
  - by rewrite Nat.add_0_r.
  - destruct (loop_body u d st idx x) as [st1|e]; simpl; [|done].
    rewrite IH. by rewrite Nat.add_succ_r.
Qed.

(** *** Well-formed states *)

Lemma wf_init : wf (@init_state V).
Proof. split; [apply NoDup_nil_2 | intros n c; simpl]. by rewrite lookup_empty. Qed.

Lemma lookup_counter_update (c : gmap string nat) name n :
  counter_update name c !! n =
  if decide (name = n) then Some (S (default 0 (c !! name))) else c !! n.
Proof. unfold counter_update. apply lookup_insert. Qed.

Lemma step_case_wf st name v st' w :
  wf st → step_case u st name v st' w → wf st'.
Proof.
  intros [Hnd Hcnt] [Hc Hcase]. split.
  - destruct Hcase as [(_ & -> & _)|[(prev & k1 & k2 & _ & _ & _ & _ & -> & _)
                                    |(cnt & k & _ & _ & _ & -> & _)]];
      auto using od_NoDup_set, od_NoDup_remove.
  - intros n c. rewrite Hc, lookup_counter_update.
    destruct (decide (name = n)) as [<-|Hne].
    + intros [= <-]. split; [lia|].
      destruct Hcase as [(Hn & -> & _)|[(prev & k1 & k2 & Hn & _)
                                       |(cnt & k & Hn & ? & _)]];
        rewrite Hn; simpl.
      * intros _. apply od_elem_of_keys_set. by left.
      * done.
      * intros [= ?]. apply Hcnt in Hn. lia.
    + intros Hn. destruct (Hcnt n c Hn) as [? Hin]. split; [done|].
      intros Hc1. specialize (Hin Hc1).
      destruct Hcase as [(_ & -> & _)|[(prev & k1 & k2 & _ & _ & _ & _ & -> & _)
                                      |(cnt & k & _ & _ & _ & -> & _)]].
      * apply od_elem_of_keys_set. by right.
      * apply od_elem_of_keys_set. right.
        apply od_elem_of_keys_remove_ne; [done|].
        apply od_elem_of_keys_set. by right.
      * apply od_elem_of_keys_set. by right.
Qed.

Lemma loop_wf st idx xs st' :
  wf st → loop u d st idx xs = Ok st' → wf st'.
Proof.
  revert st idx. induction xs as [|x xs IH]; intros st idx Hwf; simpl.
  - by intros [= <-].
  - destruct (loop_body u d st idx x) as [st1|e] eqn:Hb; simpl; [|done].
    apply loop_body_Ok in Hb as (name & v & _ & Hcase).
    eapply IH, step_case_wf; eauto.
Qed.

(** *** The size of the registry *)

Lemma od_length_set_le {A} k (a : A) (r : list (string * A)) :
  length (od.set k a r) ≤ S (length r).
Proof. rewrite od_length_set. case_decide; lia. Qed.

Lemma step_case_length_le st name v st' w :
  step_case u st name v st' w → length (ret_dict st') ≤ S (length (ret_dict st)).
Proof.
  intros [_ [(_ & -> & _)|[(prev & k1 & k2 & _ & Hprev & _ & _ & -> & _)
                          |(cnt & k & _ & _ & _ & -> & _)]]];
    [apply od_length_set_le| |apply od_length_set_le].
  assert (name ∈ od.keys (od.set k1 prev (ret_dict st))) as Hin.
  { apply od_elem_of_keys_set. right. apply od_get_Some. by rewrite Hprev. }
  apply od_length_remove in Hin.
  pose proof (od_length_set_le k1 prev (ret_dict st)).
  pose proof (od_length_set_le k2 v (od.remove name (od.set k1 prev (ret_dict st)))).
  lia.
Qed.

Lemma loop_length_le st idx xs st' :
  loop u d st idx xs = Ok st' →
  length (ret_dict st') ≤ length (ret_dict st) + length xs.
Proof.
  revert st idx. induction xs as [|x xs IH]; intros st idx; simpl.
  - intros [= <-]. lia.
  - destruct (loop_body u d st idx x) as [st1|e] eqn:Hb; simpl; [|done].
    apply loop_body_Ok in Hb as (name & v & _ & Hcase%step_case_length_le).
    intros Hl%IH. lia.
Qed.

(** An iteration whose assigned keys are new adds exactly one entry. *)
Lemma step_case_length_fresh st name v st' w (tr : list string) :
  (∀ k, k ∈ od.keys (ret_dict st) → k ∈ tr) →
  NoDup (tr ++ w) →
  step_case u st name v st' w →
  length (ret_dict st') = S (length (ret_dict st)) ∧
  ∀ k, k ∈ od.keys (ret_dict st') → k ∈ tr ++ w.
Proof.
  intros Hsub [Htr [Hdisj Hw]]%NoDup_app
    [_ [(_ & -> & ->)|[(prev & k1 & k2 & _ & Hprev & _ & _ & -> & ->)
                      |(cnt & k & _ & _ & _ & -> & ->)]]].
  - split.
    + rewrite od_length_set, decide_False; [done|].
      intros Hin%Hsub. apply (Hdisj _ Hin), list_elem_of_singleton. done.
    + intros k [->|Hk%Hsub]%od_elem_of_keys_set; apply elem_of_app; [right|by left].
      by apply list_elem_of_singleton.
  - assert (name ∈ od.keys (ret_dict st)) as Hname.
    { apply od_get_Some. by rewrite Hprev. }
    assert (k1 ∉ tr) as Hk1.
    { intros Hin. apply (Hdisj _ Hin). apply elem_of_cons. by left. }
    assert (k2 ∉ tr) as Hk2.
    { intros Hin. apply (Hdisj _ Hin). apply elem_of_cons. right.
      by apply list_elem_of_singleton. }
    assert (k1 ≠ k2) as Hk12.
    { apply NoDup_cons in Hw as [Hw _]. intros ->. apply Hw.
      by apply list_elem_of_singleton. }
    split.
    + rewrite od_length_set, decide_False.
      * rewrite od_length_remove.
        -- rewrite od_length_set, decide_False; [done|]. by intros ?%Hsub.
        -- apply od_elem_of_keys_set. by right.
      * intros [->|Hin%Hsub]%od_elem_of_keys_remove%od_elem_of_keys_set; done.
    + intros k [->|[->|Hin%Hsub]%od_elem_of_keys_remove%od_elem_of_keys_set]
               %od_elem_of_keys_set;
        rewrite elem_of_app, !elem_of_cons; auto.
  - split.
    + rewrite od_length_set, decide_False; [done|].
      intros Hin%Hsub. apply (Hdisj _ Hin), list_elem_of_singleton. done.
    + intros k' [->|Hk%Hsub]%od_elem_of_keys_set; apply elem_of_app; [right|by left].
      by apply list_elem_of_singleton.
Qed.

Lemma loop_length_fresh st idx xs st' (tr : list string) :
  (∀ k, k ∈ od.keys (ret_dict st) → k ∈ tr) →
  NoDup (tr ++ written_keys u d st idx xs) →
  loop u d st idx xs = Ok st' →
  length (ret_dict st') = length (ret_dict st) + length xs.
Proof.
  revert st idx tr. induction xs as [|x xs IH]; intros st idx tr Hsub; simpl.
  - intros _ [= <-]. lia.
  - destruct (loop_body u d st idx x) as [st1|e] eqn:Hb; simpl; [|done].
    apply loop_body_Ok in Hb as (name & v & _ & Hcase).
    rewrite app_assoc. intros Hnd Hloop.
    assert (NoDup (tr ++ written u d st idx x)) as Hnd1
      by (by apply NoDup_app in Hnd as [? _]).
    destruct (step_case_length_fresh _ _ _ _ _ tr Hsub Hnd1 Hcase) as [Hlen Hsub'].
    rewrite (IH _ _ _ Hsub' Hnd Hloop). lia.
Qed.

(** *** The pass completes *)

Lemma name_item_total idx item :
  total_naming u d → pair_ok item → ∃ name v, name_item d idx item = Ok (name, v).
Proof.
  intros [_ Hd] Hok. specialize (Hd idx item). unfold name_item.
  destruct item as [| | |xs| | |]; simpl in *;
    try (destruct (d idx _) as [name|]; simpl in *; [by eauto|done]).
  destruct xs as [|[] [|? [|]]]; try done. eauto.
Qed.

Lemma loop_body_total st idx item :
  total_naming u d → wf st → pair_ok item → ∃ st', loop_body u d st idx item = Ok st'.
Proof.
  intros Htot [Hnd Hcnt] Hok.
  destruct (name_item_total idx item Htot Hok) as (name & v & Hname).
  destruct Htot as [Hu _].
  unfold loop_body. rewrite Hname. simpl.
  destruct (counter st !! name) as [cnt|] eqn:Hc; [|by eauto].
  pose proof (Hu name v (cnt + 1)) as Hk.
  destruct (decide (cnt = 1)) as [->|Hne].
  - destruct (Hcnt _ _ Hc) as [_ Hin]. specialize (Hin eq_refl).
    pose proof Hin as [prev Hprev]%od_get_Some.
    unfold od.getitem, od.delitem. rewrite Hprev. simpl.
    pose proof (Hu name prev 1) as Hk1.
    destruct (u name prev 1) as [k1|]; simpl in *; [|done].
    assert (is_Some (od.get name (od.set k1 prev (ret_dict st)))) as [? ->].
    { apply od_get_Some, od_elem_of_keys_set. by right. }
    simpl in *. destruct (u name v 2) as [k2|]; simpl in *; [by eauto|done].
  - simpl. destruct (u name v (cnt + 1)) as [k|]; simpl in *; [by eauto|done].
Qed.

Lemma loop_total st idx xs :
  total_naming u d → wf st → Forall pair_ok xs → ∃ st', loop u d st idx xs = Ok st'.
Proof.
  intros Htot. revert st idx. induction xs as [|x xs IH]; intros st idx Hwf Hxs; simpl.
  - eauto.
  - apply Forall_cons in Hxs as [Hx Hxs].
    destruct (loop_body_total st idx x Htot Hwf Hx) as [st1 Hb]. rewrite Hb. simpl.
    apply IH; [|done].
    apply loop_body_Ok in Hb as (? & ? & _ & ?). by eapply step_case_wf.
Qed.

(** *** The counter counts occurrences *)

Lemma loop_counter st idx xs st' n :
  loop u d st idx xs = Ok st' →
  default 0 (counter st' !! n) = default 0 (counter st !! n) + occurrences d n idx xs.
Proof.
  revert st idx. induction xs as [|x xs IH]; intros st idx; simpl.
  - intros [= <-]. lia.
  - destruct (loop_body u d st idx x) as [st1|e] eqn:Hb; simpl; [|done].
    apply loop_body_Ok in Hb as (name & v & -> & [Hc _]).
    intros ->%IH. rewrite Hc, lookup_counter_update.
    destruct (decide (name = n)) as [->|]; simpl; lia.
Qed.

Lemma loop_counter_init xs st n :
  loop u d init_state 0 xs = Ok st →
  counter st !! n =
  if decide (occurrences d n 0 xs = 0) then None else Some (occurrences d n 0 xs).
Proof.
  intros Hloop. pose proof (loop_wf _ _ _ _ wf_init Hloop) as [_ Hcnt].
  apply loop_counter with (n := n) in Hloop. simpl in Hloop.
  rewrite lookup_empty in Hloop. simpl in Hloop.
  destruct (counter st !! n) as [c|] eqn:Hc; simpl in Hloop.
  - apply Hcnt in Hc as [? _]. rewrite decide_False by lia. by rewrite Hloop.
  - by rewrite decide_True.
Qed.
End normalizer_facts.

(** ** The registry returned by the normaliser *)

Section normalizer_claims.
Context {V : Type}.
Variable u : string → obj V → nat → result string.
Variable d : nat → obj V → result string.

Lemma loop_init_registry (xs : list (obj V)) st :
  loop u d init_state 0 xs = Ok st →
  NoDup (od.keys (ret_dict st)) ∧
  length (ret_dict st) ≤ length xs ∧
  (NoDup (written_keys u d init_state 0 xs) → length (ret_dict st) = length xs).
Proof.
  intros Hloop. split_and!.
  - by destruct (loop_wf _ _ _ _ _ _ wf_init Hloop).
  - by apply loop_length_le in Hloop.
  - intros Hnd. apply (loop_length_fresh _ _ _ _ _ _ []) in Hloop; [done| |done].
    simpl. by intros k ?%elem_of_nil.
Qed.

(** The dispatch of [_to_dict] on the kind of spec. *)
Lemma _to_dict_cases (ds : obj V) :
  (_to_dict u d ds = Ok [] ∧ ds = ONone)
  ∨ (∃ o kvs, ds = ODict o kvs ∧ _to_dict u d ds = Ok kvs)
  ∨ (∃ xs, _to_dict u d ds = (st ← loop u d init_state 0 xs; Ok (ret_dict st)) ∧
           items_of ds = xs ∧
           assigned_keys u d ds = written_keys u d init_state 0 xs ∧
           (valid_spec ds → Forall pair_ok xs)).
Proof.
  destruct ds; try (by left); try (right; left; by eauto);
    right; right; eexists; (split_and!; [reflexivity..|]); try done;
    by intros ?; apply Forall_singleton.
Qed.

(** C1, amended: for every valid spec the normaliser completes when the
    naming functions do; the registry it returns has no duplicate keys
    and at most as many entries as the spec has items, and exactly as
    many when the keys the pass assigns to are pairwise distinct. *)
Theorem normalizer_registry_size (ds : obj V) :
  valid_spec ds →
  (total_naming u d → is_ok (_to_dict u d ds)) ∧
  ∀ reg, _to_dict u d ds = Ok reg →
    NoDup (od.keys reg) ∧
    length reg ≤ length (items_of ds) ∧
    (NoDup (assigned_keys u d ds) → length reg = length (items_of ds)).
Proof.
  intros Hvalid.
  destruct (_to_dict_cases ds) as [[-> ->]|[(o & kvs & -> & ->)
                                  |(xs & -> & -> & -> & Hxs)]].
  - split; [done|]. intros reg [= <-]. split_and!; [apply NoDup_nil_2|done..].
  - split; [done|]. intros reg [= <-]. simpl in *.
    unfold od.values. rewrite length_fmap. by split_and!.
  - specialize (Hxs Hvalid). split.
    + intros Htot.
      destruct (loop_total u d init_state 0 xs Htot wf_init Hxs) as [st ->]. done.
    + intros reg.
      destruct (loop u d init_state 0 xs) as [st|e] eqn:Hloop; simpl; [|done].
      intros [= <-]. by apply loop_init_registry.
Qed.

(** C3: on the second occurrence of a name the entry stored under the
    name is re-keyed with count 1 and the item goes in with count 2; on
    a later occurrence the item alone goes in, with the next count. *)
Theorem normalizer_collision_step (xs : list (obj V)) item reg name v :
  _to_dict u d (OList xs) = Ok reg →
  name_item d (length xs) item = Ok (name, v) →
  let occ := occurrences d name 0 xs in
  (occ = 1 →
     ∃ prev, od.get name reg = Some prev ∧
       ∀ k1 k2, u name prev 1 = Ok k1 → u name v (occ + 1) = Ok k2 →
         let reg' := od.set k2 v (od.remove name (od.set k1 prev reg)) in
         _to_dict u d (OList (xs ++ [item])) = Ok reg' ∧
         od.get k2 reg' = Some v ∧
         (k2 ≠ name → od.get name reg' = None) ∧
         (k1 ≠ name → k1 ≠ k2 → od.get k1 reg' = Some prev))
  ∧ (2 ≤ occ →
       ∀ k, u name v (occ + 1) = Ok k →
         _to_dict u d (OList (xs ++ [item])) = Ok (od.set k v reg)).
Proof.
  simpl. destruct (loop u d init_state 0 xs) as [st|e] eqn:Hloop; simpl; [|done].
  intros [= <-] Hname.
  pose proof (loop_wf _ _ _ _ _ _ wf_init Hloop) as [Hnd Hcnt].
  pose proof (loop_counter_init u d xs st name Hloop) as Hc.
  rewrite loop_app, Hloop. simpl. unfold loop_body. rewrite Hname. simpl.
  split.
  - intros Hocc. rewrite Hocc in Hc |- *. simpl in Hc. rewrite Hc. simpl.
    destruct (Hcnt _ _ Hc) as [_ Hin]. specialize (Hin eq_refl).
    pose proof Hin as [prev Hprev]%od_get_Some.
    exists prev. split; [done|]. intros k1 k2 Hk1 Hk2.
    unfold od.getitem, od.delitem. rewrite Hprev. simpl. rewrite Hk1. simpl.
    assert (is_Some (od.get name (od.set k1 prev (ret_dict st)))) as [? ->].
    { apply od_get_Some, od_elem_of_keys_set. by right. }
    simpl in *. rewrite Hk2. simpl. split_and!.
    + done.
    + apply od_get_set_eq.
    + intros Hne. rewrite od_get_set_ne by done.
      apply od_get_remove_eq. by apply od_NoDup_set.
    + intros Hne1 Hne2. rewrite od_get_set_ne by done.
      rewrite od_get_remove_ne by done. apply od_get_set_eq.
  - intros Hocc. rewrite decide_False in Hc by lia. rewrite Hc. simpl.
    rewrite decide_False by lia. simpl. intros k ->. done.
Qed.

(** C7: a mapping passes through unchanged, whatever the naming
    functions, and normalising the output of the normaliser again
    returns it as it is. *)
Theorem normalizer_mapping_identity
    (u' : string → obj V → nat → result string) (d' : nat → obj V → result string) :
  (∀ ordered kvs, _to_dict u d (ODict ordered kvs) = Ok kvs) ∧
  (∀ ds, (reg ← _to_dict u d ds; _to_dict u' d' (ODict true reg)) = _to_dict u d ds).
Proof.
  split; [done|]. intros ds. by destruct (_to_dict u d ds).
Qed.

(** A single item that is a pair with a [str] name is unpacked into the
    one-entry registry; the embedding of module [dyn] has the names of
    every type. *)
Lemma normalizer_single_pair (n : string) (v : obj V) :
  _to_dict u d (OTuple [OStr n; v]) = Ok [(n, v)].
Proof.
  unfold _to_dict, loop, loop_body, name_item. simpl.
  by rewrite lookup_empty.
Qed.
End normalizer_claims.

(** C5: the example of the generic naming policy. *)
Theorem to_dict_example :
  to_dict (V := Z) (OList [OInt 5; OInt 5; OInt 5]) (Some "m")
  = Ok [("m.1", OInt 5); ("m.2", OInt 5); ("m.3", OInt 5)]
  ∧ _to_dict (V := Z) (fun n _ c => Ok (n +:+ "." +:+ pretty c)) (fun _ _ => Ok "m")
      (OList [OInt 5; OInt 5; OInt 5])
    = Ok [("m.1", OInt 5); ("m.2", OInt 5); ("m.3", OInt 5)].
Proof. split; vm_compute; reflexivity. Qed.

(** C1 as stated fails: three named items, two entries. *)
Lemma normalizer_size_counterexample :
  ¬ (∀ (u : string → obj Z → nat → result string) (d : nat → obj Z → result string)
       (ds : obj Z) reg,
       valid_spec ds → _to_dict u d ds = Ok reg →
       NoDup (od.keys reg) ∧ length reg = length (items_of ds)).
Proof.
  intros Hclaim.
  pose (ds := OList [OTuple [OStr "a"; OInt 1]; OTuple [OStr "a.2"; OInt 2];
                     OTuple [OStr "a"; OInt 3]] : obj Z).
  destruct (Hclaim generic_unambiguous_name_fn (generic_default_name_fn None)
              ds [("a.2", OInt 3); ("a.1", OInt 1)]) as [_ Hlen].
  - repeat constructor.
  - vm_compute. reflexivity.
  - discriminate Hlen.
Qed.

Lemma generic_naming_total {V : Type} (default_name : option string) :
  total_naming (V := V) generic_unambiguous_name_fn (generic_default_name_fn default_name).
Proof. split; [done|]. intros i v. by destruct default_name. Qed.

(** Three items that all get the default name: the assigned keys are
    [m], [m.1], [m.2], [m.3]. *)
Lemma normalizer_registry_size_witness :
  is_ok (to_dict (V := Z) (OList [OInt 5; OInt 5; OInt 5]) (Some "m"))
  ∧ length [("m.1", OInt (V := Z) 5); ("m.2", OInt 5); ("m.3", OInt 5)]
    = length (items_of (V := Z) (OList [OInt 5; OInt 5; OInt 5])).
Proof.
  assert (valid_spec (V := Z) (OList [OInt 5; OInt 5; OInt 5])) as Hvalid
    by (repeat constructor).
  destruct (normalizer_registry_size generic_unambiguous_name_fn
              (generic_default_name_fn (Some "m")) _ Hvalid) as [Htotal Hreg].
  split.
  - apply Htotal, generic_naming_total.
  - refine (proj2 (proj2 (Hreg _ _)) _).
    + vm_compute; reflexivity.
    + vm_compute. repeat constructor; set_solver.
Defined.

(** A second and a third occurrence of the default name. *)
Lemma normalizer_collision_step_witness :
  _to_dict (V := Z) generic_unambiguous_name_fn (generic_default_name_fn (Some "m"))
    (OList [OInt 5; OInt 6])
  = Ok [("m.1", OInt 5); ("m.2", OInt 6)]
  ∧ _to_dict (V := Z) generic_unambiguous_name_fn (generic_default_name_fn (Some "m"))
      (OList [OInt 5; OInt 6; OInt 7])
    = Ok [("m.1", OInt 5); ("m.2", OInt 6); ("m.3", OInt 7)].
Proof.
  split.
  - destruct (proj1 (normalizer_collision_step (V := Z) generic_unambiguous_name_fn
                       (generic_default_name_fn (Some "m"))
                       [OInt 5] (OInt 6) [("m", OInt 5)] "m" (OInt 6) eq_refl eq_refl)
                eq_refl) as (prev & Hprev & Hstep).
    injection Hprev as <-.
    exact (proj1 (Hstep "m.1" "m.2" eq_refl eq_refl)).
  - exact (proj2 (normalizer_collision_step (V := Z) generic_unambiguous_name_fn
                    (generic_default_name_fn (Some "m"))
                    [OInt 5; OInt 6] (OInt 7) [("m.1", OInt 5); ("m.2", OInt 6)]
                    "m" (OInt 7) eq_refl eq_refl)
             (le_n 2) "m.3" eq_refl).
Defined.

(** ** The metric naming policy *)

Section to_metric_dict_claims.
Context {V : Type}.
Implicit Types (x : obj V) (vs : list (obj V)).

Lemma check_metrics_Ok vs :
  check_metrics vs = Ok tt ↔ Forall (fun x => is_Metric x = true) vs.
Proof.
  induction vs as [|x vs IH]; simpl.
  - split; [by constructor|done].
  - rewrite Forall_cons. destruct (is_Metric x); [rewrite IH|]; naive_solver.
Qed.

Lemma check_metrics_Raise vs :
  Exists (fun x => is_Metric x = false) vs →
  ∃ pre x post,
    vs = pre ++ x :: post ∧
    Forall (fun y => is_Metric y = true) pre ∧ is_Metric x = false ∧
    check_metrics vs =
      Raise (ValueError ("All metrics must be of class Metric, but found "
                         +:+ type_repr x)).
Proof.
  induction vs as [|x vs IH]; [by intros ?%Exists_nil|].
  rewrite Exists_cons. intros Hex. simpl.
  destruct (is_Metric x) eqn:Hx.
  - destruct Hex as [?|Hex]; [congruence|].
    destruct (IH Hex) as (pre & y & post & -> & Hpre & Hy & ->).
    exists (x :: pre), y, post. split_and!; try done. by constructor.
  - exists [], x, vs. split_and!; try done. 
Qed.

(** C6, amended: both failures are [ValueError]s; the one for a value
    that is not a [Metric] names the type of the first such value. *)
Theorem to_metric_dict_errors (metrics : obj V) :
  (∀ kvs, metrics = ODict false kvs →
     to_metric_dict metrics =
       Raise (ValueError "Metrics dictionary must be of type OrderedDict"))
  ∧ (∀ reg,
       (∀ kvs, metrics ≠ ODict false kvs) →
       _to_dict metric_unambiguous_name_fn metric_default_name_fn metrics = Ok reg →
       Exists (fun x => is_Metric x = false) (od.values reg) →
       ∃ pre x post,
         od.values reg = pre ++ x :: post ∧
         Forall (fun y => is_Metric y = true) pre ∧ is_Metric x = false ∧
         to_metric_dict metrics =
           Raise (ValueError ("All metrics must be of class Metric, but found "
                              +:+ type_repr x)))
  ∧ (∀ reg,
       to_metric_dict metrics = Ok reg →
       _to_dict metric_unambiguous_name_fn metric_default_name_fn metrics = Ok reg ∧
       Forall (fun y => is_Metric y = true) (od.values reg)).
Proof.
  split_and!.
  - by intros kvs ->.
  - intros reg Hdict Hreg Hex.
    destruct (check_metrics_Raise _ Hex) as (pre & x & post & Hvs & Hpre & Hx & Hchk).
    exists pre, x, post. split_and!; try done.
    assert (to_metric_dict metrics =
            (metric_dict ← _to_dict metric_unambiguous_name_fn metric_default_name_fn metrics;
             _ ← check_metrics (od.values metric_dict); Ok metric_dict)) as ->.
    { destruct metrics as [| | | | |[] kvs|]; try done. by destruct (Hdict kvs). }
    rewrite Hreg. simpl. by rewrite Hchk.
  - intros reg Hok.
    assert ((metric_dict ← _to_dict metric_unambiguous_name_fn metric_default_name_fn metrics;
             _ ← check_metrics (od.values metric_dict); Ok metric_dict) = Ok reg) as Hrun.
    { by destruct metrics as [| | | | |[] kvs|]. }
    destruct (_to_dict _ _ metrics) as [r|]; simpl in Hrun; [|done].
    destruct (check_metrics (od.values r)) as [[]|] eqn:Hchk; simpl in Hrun; [|done].
    injection Hrun as ->. split; [done|]. by apply check_metrics_Ok.
Qed.
End to_metric_dict_claims.

(** C6 as stated fails: the error raised for a value that is not a [Metric]
    does not name that value.  Were the first such value of the normalised
    registry named by the error, it could be read off the error; the
    scalars 5 and 6 are each their own offending value and raise the same
    error. *)
Lemma to_metric_dict_error_counterexample :
  ¬ ∃ offending : exn → obj Z,
      ∀ metrics reg pre x post e,
        (∀ kvs, metrics ≠ ODict false kvs) →
        _to_dict metric_unambiguous_name_fn metric_default_name_fn metrics = Ok reg →
        od.values reg = pre ++ x :: post →
        Forall (fun y => is_Metric y = true) pre → is_Metric x = false →
        to_metric_dict metrics = Raise e →
        offending e = x.
Proof.
  intros [f Hf].
  assert (∀ n : Z,
    f (ValueError "All metrics must be of class Metric, but found <class 'int'>")
    = OInt n) as Hint.
  { intros n. apply (Hf (OInt n) [("int", OInt n)] [] (OInt n) []); try done. }
  pose proof (Hint 5%Z) as H5. rewrite (Hint 6%Z) in H5. discriminate H5.
Qed.

(** A plain [dict], a list with values that are no metrics, and a list of
    one metric. *)
Lemma to_metric_dict_errors_witness :
  to_metric_dict (V := Z) (ODict false [("a", OInt 1)])
  = Raise (ValueError "Metrics dictionary must be of type OrderedDict")
  ∧ to_metric_dict (V := Z) (OList [OInt 5; OStr "x"])
    = Raise (ValueError "All metrics must be of class Metric, but found <class 'int'>")
  ∧ Forall (fun y => is_Metric y = true)
      (od.values [("Accuracy", OMetric samples.accuracy)]).
Proof.
  split_and!.
  - apply (proj1 (to_metric_dict_errors (ODict false [("a", OInt 1)])) _ eq_refl).
  - destruct (proj1 (proj2 (to_metric_dict_errors (V := Z) (OList [OInt 5; OStr "x"])))
                [("int", OInt 5); ("str", OStr "x")])
      as (pre & x & post & Hvs & Hpre & Hx & ->).
    + done.
    + vm_compute; reflexivity.
    + apply Exists_cons_hd. reflexivity.
    + destruct pre as [|y pre]; simpl in Hvs.
      * by injection Hvs as <- <-.
      * injection Hvs as <- _. apply Forall_cons in Hpre as [Hy _]. discriminate Hy.
  - apply (proj2 (proj2 (to_metric_dict_errors (OList [OMetric samples.accuracy])))).
    vm_compute; reflexivity.
Defined.

(** ** The instance resolver *)

(** C10: [None] is returned as it is, whatever the class asked for. *)
Theorem to_instance_None {V : Type}
    (get_instance : obj V → list (string * obj V) → list string → result (obj V))
    (str : obj V → string) (typ : pytype V) (modules : list string)
    (extra_kwargs : option (list (string * obj V))) :
  to_instance get_instance str typ ONone modules extra_kwargs = Ok ONone.
Proof. reflexivity. Qed.

(** ** ProgressTracker *)

Lemma size_after_adds (t : ProgressTracker.t) (ns : list Z) :
  ProgressTracker.size (foldl ProgressTracker.add t ns) = ProgressTracker.size t.
Proof. revert t. induction ns as [|n ns IH]; intros t; simpl; [done|]. by rewrite IH. Qed.

Lemma n_examples_after_adds (t : ProgressTracker.t) (ns : list Z) :
  ProgressTracker.n_examples (foldl ProgressTracker.add t ns)
  = (ProgressTracker.n_examples t + foldr Z.add 0%Z ns)%Z.
Proof.
  revert t. induction ns as [|n ns IH]; intros t; simpl; [lia|].
  rewrite IH. simpl. lia.
Qed.

(** C8: after any sequence of [add]s, [progress] is [None] exactly when the
    tracker was constructed with size [None]; otherwise it is the value of
    [n_examples / size * 100], with [n_examples] the sum of what was added;
    50 of 200 is 25.0. *)
Theorem progress_spec (size0 : option Z) (ns : list Z) :
  (ProgressTracker.progress (foldl ProgressTracker.add (ProgressTracker.__init__ size0) ns)
   = Ok None ↔ size0 = None)
  ∧ (∀ sz, size0 = Some sz →
       ProgressTracker.progress
         (foldl ProgressTracker.add (ProgressTracker.__init__ size0) ns) =
         (q ← pyfloat.int_truediv (foldr Z.add 0%Z ns) sz;
          Ok (Some (pyfloat.mul_int q 100))))
  ∧ ProgressTracker.progress
      (ProgressTracker.add (ProgressTracker.__init__ (Some 200%Z)) 50)
    = Ok (Some (pyfloat.of_int 25)).
Proof.
  unfold ProgressTracker.progress.
  rewrite size_after_adds, n_examples_after_adds. simpl. split_and!.
  - destruct size0 as [sz|]; [|done]. split; [|done].
    by destruct (pyfloat.int_truediv _ sz).
  - by intros sz ->.
  - vm_compute. reflexivity.
Qed.

(** 20 and then 30 of 200. *)
Lemma progress_spec_witness :
  ProgressTracker.progress
    (foldl ProgressTracker.add (ProgressTracker.__init__ (Some 200%Z)) [20%Z; 30%Z])
  = Ok (Some (SpecFloat.S754_finite false 7036874417766400 (-48))).
Proof.
  rewrite (proj1 (proj2 (progress_spec (Some 200%Z) [20%Z; 30%Z])) 200%Z eq_refl).
  vm_compute. reflexivity.
Defined.

(** ** MetricList *)

Section metric_list_claims.
Context {V : Type} `{PyEq V}.
Implicit Types (self o : MetricList.t (V := V)) (ms : list (string * Metric V)).

Lemma check_pairs_cons (a b : string * Metric V) ps :
  MetricList.check_pairs ((a, b) :: ps) =
  if decide (a.1 = b.1 ∧ metric_type a.2 = metric_type b.2)
  then MetricList.check_pairs ps else Raise MetricList.different_base_metrics.
Proof.
  destruct a as [n m], b as [n' m'].
  cbn [MetricList.check_pairs fst snd]. unfold MetricList.same_type.
  destruct (decide _) as [(Hn & Hty)|Hne].
  - rewrite (bool_decide_eq_false_2 (n ≠ n')) by (by intros ?).
    by rewrite (bool_decide_eq_true_2 _ Hty).
  - case_bool_decide as Hn; [done|].
    case_bool_decide as Hty; [|done]. by destruct Hne.
Qed.

(** Registries of the same length pass the check exactly when they have
    the same shape. *)
Lemma check_pairs_same_length ms ms' :
  length ms = length ms' →
  MetricList.check_pairs (zip ms ms') =
  if decide (MetricList.shape ms = MetricList.shape ms') then Ok tt
  else Raise MetricList.different_base_metrics.
Proof.
  revert ms'. induction ms as [|a ms IH]; intros [|b ms'] Hlen; try done.
  injection Hlen as Hlen. cbn [zip zip_with]. rewrite check_pairs_cons, (IH _ Hlen).
  change (MetricList.shape (a :: ms))
    with ((a.1, metric_type a.2) :: MetricList.shape ms).
  change (MetricList.shape (b :: ms'))
    with ((b.1, metric_type b.2) :: MetricList.shape ms').
  destruct (decide (a.1 = b.1 ∧ _)) as [(H1 & H2)|Hne].
  - destruct (decide (MetricList.shape ms = MetricList.shape ms')) as [Heq|Hneq].
    + rewrite decide_True; [done|]. by rewrite H1, H2, Heq.
    + rewrite decide_False; [done|]. by intros [= _ _ ?].
  - rewrite decide_False; [done|]. intros [= ? ? _]. by destruct Hne.
Qed.

Lemma compare_metrics_rejects self o :
  length (MetricList.metrics self) = length (MetricList.metrics o) →
  MetricList.shape (MetricList.metrics self) ≠ MetricList.shape (MetricList.metrics o) →
  MetricList._compare_metrics self (MetricList.IsMetricList o) = Raise MetricList.different_base_metrics
  ∧ MetricList.__eq__ self (MetricList.IsMetricList o) = Raise MetricList.different_base_metrics
  ∧ MetricList.__gt__ self (MetricList.IsMetricList o) = Raise MetricList.different_base_metrics.
Proof.
  intros Hlen Hshape. unfold MetricList.__eq__, MetricList.__gt__, MetricList._compare_metrics.
  rewrite (check_pairs_same_length _ _ Hlen), decide_False by done. done.
Qed.

Lemma first_better_app a b ms name m ms' x y r :
  Forall (MetricList.ties a b) ms →
  a !! name = Some x → b !! name = Some y → better m x y = Some r →
  MetricList.first_better a b (ms ++ (name, m) :: ms') = Ok r.
Proof.
  intros Hties Hx Hy Hr. induction Hties as [|[n0 m0] ms (x0 & y0 & Hx0 & Hy0 & Htie) _ IH];
    simpl in *; unfold MetricList.getvalue.
  - by rewrite Hx, Hy; simpl; rewrite Hr.
  - rewrite Hx0, Hy0. simpl. by rewrite Htie.
Qed.

Lemma first_better_all_tie a b ms :
  Forall (MetricList.ties a b) ms → MetricList.first_better a b ms = Ok false.
Proof.
  induction 1 as [|[n0 m0] ms (x0 & y0 & Hx0 & Hy0 & Htie) _ IH];
    simpl in *; unfold MetricList.getvalue; [done|].
  rewrite Hx0, Hy0. simpl. by rewrite Htie.
Qed.

(** C4: [__gt__] is decided by the first metric, in registry order, that
    does not tie; when all tie the answer is [False]. *)
Theorem gt_lexicographic self o :
  MetricList._compare_metrics self (MetricList.IsMetricList o) = Ok tt →
  (∀ pre name m post x y r,
     MetricList.metrics self = pre ++ (name, m) :: post →
     Forall (MetricList.ties (MetricList.values self) (MetricList.values o)) pre →
     MetricList.values self !! name = Some x →
     MetricList.values o !! name = Some y →
     better m x y = Some r →
     MetricList.__gt__ self (MetricList.IsMetricList o) = Ok r)
  ∧ (Forall (MetricList.ties (MetricList.values self) (MetricList.values o))
       (MetricList.metrics self) →
     MetricList.__gt__ self (MetricList.IsMetricList o) = Ok false)
  ∧ (∀ nA A nB B xA yA xB yB,
       MetricList.metrics self = [(nA, A); (nB, B)] →
       MetricList.values self !! nA = Some xA → MetricList.values o !! nA = Some yA →
       MetricList.values self !! nB = Some xB → MetricList.values o !! nB = Some yB →
       better A xA yA = None → better B xB yB = Some true →
       MetricList.__gt__ self (MetricList.IsMetricList o) = Ok true).
Proof.
  intros Hcmp. unfold MetricList.__gt__. rewrite Hcmp. simpl.
  assert (∀ pre name m post x y r,
     MetricList.metrics self = pre ++ (name, m) :: post →
     Forall (MetricList.ties (MetricList.values self) (MetricList.values o)) pre →
     MetricList.values self !! name = Some x →
     MetricList.values o !! name = Some y →
     better m x y = Some r →
     MetricList.first_better (MetricList.values self) (MetricList.values o)
       (MetricList.metrics self) = Ok r) as Hfirst.
  { intros pre name m post x y r -> Hties Hx Hy Hr. by eapply first_better_app. }
  split_and!.
  - done.
  - apply first_better_all_tie.
  - intros nA A nB B xA yA xB yB Hms HxA HyA HxB HyB HA HB.
    apply (Hfirst [(nA, A)] nB B [] xB yB true); try done.
    apply Forall_singleton. by exists xA, yA.
Qed.
End metric_list_claims.

(** C2 at a registry that is a strict prefix of the other: no error, both
    comparisons answer [False]. *)
Theorem metric_list_prefix_not_rejected :
  let self := MetricList.__init__
                [("acc", samples.accuracy); ("f1", samples.accuracy)]
                (Some {[ "acc" := 1%Z; "f1" := 2%Z ]}) in
  let other := MetricList.__init__
                 [("acc", samples.accuracy)] (Some {[ "acc" := 5%Z ]}) in
  od.keys (MetricList.metrics self) ≠ od.keys (MetricList.metrics other)
  ∧ MetricList._compare_metrics self (MetricList.IsMetricList other) = Ok tt
  ∧ MetricList.__eq__ self (MetricList.IsMetricList other) = Ok false
  ∧ MetricList.__gt__ self (MetricList.IsMetricList other) = Ok false.
Proof. split_and!; [discriminate|vm_compute; reflexivity..]. Qed.

(** The tie-breaker decides, the primary metric decides, and nothing
    decides. *)
Lemma gt_lexicographic_witness :
  MetricList.__gt__
    (MetricList.__init__ [("loss", samples.tying); ("acc", samples.accuracy)]
       (Some {[ "loss" := 3%Z; "acc" := 9%Z ]}))
    (MetricList.IsMetricList
       (MetricList.__init__ [("loss", samples.tying); ("acc", samples.accuracy)]
          (Some {[ "loss" := 4%Z; "acc" := 7%Z ]})))
  = Ok true
  ∧ MetricList.__gt__
      (MetricList.__init__ [("acc", samples.accuracy); ("loss", samples.tying)]
         (Some {[ "loss" := 3%Z; "acc" := 7%Z ]}))
      (MetricList.IsMetricList
         (MetricList.__init__ [("acc", samples.accuracy); ("loss", samples.tying)]
            (Some {[ "loss" := 4%Z; "acc" := 9%Z ]})))
    = Ok false
  ∧ MetricList.__gt__
      (MetricList.__init__ [("loss", samples.tying)] (Some {[ "loss" := 3%Z ]}))
      (MetricList.IsMetricList
         (MetricList.__init__ [("loss", samples.tying)] (Some {[ "loss" := 4%Z ]})))
    = Ok false.
Proof.
  split_and!.
  - refine (proj2 (proj2 (gt_lexicographic _ _ _))
              "loss" samples.tying "acc" samples.accuracy 3%Z 4%Z 9%Z 7%Z _ _ _ _ _ _ _);
      vm_compute; reflexivity.
  - refine (proj1 (gt_lexicographic _ _ _)
              [] "acc" samples.accuracy [("loss", samples.tying)] 7%Z 9%Z false _ _ _ _ _);
      try (vm_compute; reflexivity). constructor.
  - refine (proj1 (proj2 (gt_lexicographic _ _ _)) _); [vm_compute; reflexivity|].
    apply Forall_singleton. exists 3%Z, 4%Z. split_and!; vm_compute; reflexivity.
Defined.

(** ** More on the normaliser *)

Section normalizer_more.
Context {V : Type}.
Variable u : string → obj V → nat → result string.
Variable d : nat → obj V → result string.
Implicit Types (st : loop_state V) (item v : obj V) (xs : list (obj V)).

Lemma name_item_default_total idx item :
  (∀ i v, is_ok (d i v)) → pair_ok item → ∃ name v, name_item d idx item = Ok (name, v).
Proof.
  intros Hd Hok.
  apply (name_item_total (fun _ _ _ => Ok "") d idx item); [|done].
  by split.
Qed.

Lemma named_items_length idx xs :
  (∀ i v, is_ok (d i v)) → Forall pair_ok xs →
  length (named_items d idx xs) = length xs.
Proof.
  intros Hd Hxs. revert idx. induction Hxs as [|x xs Hx _ IH]; intros idx; simpl; [done|].
  destruct (name_item_default_total idx x Hd Hx) as (n & v & ->). simpl. by rewrite IH.
Qed.

Lemma od_keys_app {A} (r1 r2 : list (string * A)) :
  od.keys (r1 ++ r2) = od.keys r1 ++ od.keys r2.
Proof. unfold od.keys. apply fmap_app. Qed.

(** When no name is counted yet and the names to come are new and
    distinct, each item is appended under its name. *)
Lemma loop_distinct st idx xs :
  (∀ i v, is_ok (d i v)) → Forall pair_ok xs →
  NoDup (od.keys (named_items d idx xs)) →
  (∀ n, n ∈ od.keys (named_items d idx xs) →
        counter st !! n = None ∧ n ∉ od.keys (ret_dict st)) →
  ∃ st', loop u d st idx xs = Ok st' ∧
         ret_dict st' = ret_dict st ++ named_items d idx xs.
Proof.
  intros Hd Hxs. revert st idx.
  induction Hxs as [|x xs Hx Hxs IH]; intros st idx; simpl.
  - intros _ _. exists st. by rewrite app_nil_r.
  - destruct (name_item_default_total idx x Hd Hx) as (n & v & Hname).
    unfold loop_body. rewrite Hname. simpl.
    unfold od.keys. simpl. fold (od.keys (named_items d (S idx) xs)).
    rewrite NoDup_cons. intros [Hn Hnd] Hnew.
    destruct (Hnew n) as [Hc Hk]; [apply elem_of_cons; by left|].
    rewrite Hc. simpl.
    destruct (IH {| ret_dict := od.set n v (ret_dict st);
                    counter := counter_update n (counter st) |} (S idx) Hnd)
      as (st' & -> & Hret).
    + intros n' Hn'. simpl. destruct (Hnew n') as [Hc' Hk'].
      { apply elem_of_cons. by right. }
      assert (n ≠ n') as Hne by (by intros ->).
      split.
      * rewrite lookup_counter_update. by rewrite decide_False.
      * rewrite od_elem_of_keys_set. by intros [?|?].
    + exists st'. split; [done|]. rewrite Hret. simpl.
      rewrite od_set_fresh by done. by rewrite <- app_assoc.
Qed.

Lemma _to_dict_distinct xs :
  (∀ i v, is_ok (d i v)) → Forall pair_ok xs →
  NoDup (od.keys (named_items d 0 xs)) →
  _to_dict u d (OList xs) = Ok (named_items d 0 xs).
Proof.
  intros Hd Hxs Hnd. simpl.
  destruct (loop_distinct init_state 0 xs Hd Hxs Hnd) as (st' & Hloop & Hret).
  - intros n _. simpl. split; [apply lookup_empty | apply not_elem_of_nil].
  - rewrite Hloop. simpl. by rewrite Hret.
Qed.
(** One iteration, case by case. *)
Lemma loop_body_first st idx item name v :
  name_item d idx item = Ok (name, v) → counter st !! name = None →
  loop_body u d st idx item
  = Ok {| ret_dict := od.set name v (ret_dict st);
          counter := counter_update name (counter st) |}.
Proof. intros Hname Hc. unfold loop_body. rewrite Hname. simpl. by rewrite Hc. Qed.

Lemma loop_body_second st idx item name v prev :
  name_item d idx item = Ok (name, v) → counter st !! name = Some 1 →
  od.get name (ret_dict st) = Some prev →
  loop_body u d st idx item
  = (k1 ← u name prev 1; k2 ← u name v 2;
     Ok {| ret_dict := od.set k2 v (od.remove name (od.set k1 prev (ret_dict st)));
           counter := counter_update name (counter st) |}).
Proof.
  intros Hname Hc Hprev. unfold loop_body. rewrite Hname. simpl. rewrite Hc. simpl.
  unfold od.getitem, od.delitem. rewrite Hprev. simpl.
  destruct (u name prev 1) as [k1|]; simpl; [|done].
  assert (is_Some (od.get name (od.set k1 prev (ret_dict st)))) as [? ->]; [|done].
  apply od_get_Some, od_elem_of_keys_set. right. apply od_get_Some. by rewrite Hprev.
Qed.

Lemma loop_body_later st idx item name v cnt :
  name_item d idx item = Ok (name, v) → counter st !! name = Some cnt → cnt ≠ 1 →
  loop_body u d st idx item
  = (k ← u name v (cnt + 1);
     Ok {| ret_dict := od.set k v (ret_dict st);
           counter := counter_update name (counter st) |}).
Proof.
  intros Hname Hc Hne. unfold loop_body. rewrite Hname. simpl. rewrite Hc. simpl.
  by rewrite decide_False.
Qed.

(** Two items under one name, started from nothing. *)
Lemma loop_two_same_name item1 item2 name v1 v2 :
  name_item d 0 item1 = Ok (name, v1) → name_item d 1 item2 = Ok (name, v2) →
  loop u d init_state 0 [item1; item2]
  = (k1 ← u name v1 1; k2 ← u name v2 2;
     Ok {| ret_dict := od.set k2 v2 (od.remove name (od.set k1 v1 [(name, v1)]));
           counter := counter_update name (counter_update name ∅) |}).
Proof.
  intros Hn1 Hn2. cbn [loop].
  rewrite (loop_body_first init_state 0 item1 name v1 Hn1) by apply lookup_empty.
  cbn [mbind result_bind].
  rewrite (loop_body_second _ 1 item2 name v2 v1 Hn2).
  - destruct (u name v1 1) as [k1|]; simpl; [|done].
    by destruct (u name v2 2) as [k2|].
  - simpl. rewrite lookup_counter_update, decide_True by done. by rewrite lookup_empty.
  - simpl. by rewrite decide_True.
Qed.

Lemma rekey_single {A} (n k1 k2 : string) (a b : A) :
  k1 ≠ n →
  od.set k2 b (od.remove n (od.set k1 a [(n, a)]))
  = if decide (k2 = k1) then [(k1, b)] else [(k1, a); (k2, b)].
Proof.
  intros Hne. simpl. rewrite (decide_False (P := k1 = n)) by done.
  simpl. rewrite (decide_True (P := n = n)) by done. simpl.
  by destruct (decide (k2 = k1)) as [->|].
Qed.

(** X1: when the names of the items are pairwise distinct the registry is the
    list of (name, value) pairs in input order; the disambiguating function
    is not consulted. *)
Theorem normalizer_distinct_names xs :
  (∀ i v, is_ok (d i v)) → Forall pair_ok xs →
  NoDup (od.keys (named_items d 0 xs)) →
  _to_dict u d (OList xs) = Ok (named_items d 0 xs).
Proof. apply _to_dict_distinct. Qed.
End normalizer_more.

Section normalizer_values.
Context {V : Type}.
Variable u : string → obj V → nat → result string.
Variable d : nat → obj V → result string.
Implicit Types (st : loop_state V) (item v x : obj V) (xs : list (obj V)).

Lemma od_values_set {A} k (a x : A) (r : list (string * A)) :
  x ∈ od.values (od.set k a r) → x = a ∨ x ∈ od.values r.
Proof.
  unfold od.values. induction r as [|[k' a'] r IH]; simpl.
  - intros ->%list_elem_of_singleton. by left.
  - destruct (decide (k = k')); simpl; rewrite !elem_of_cons; naive_solver.
Qed.

Lemma od_values_remove {A} k (x : A) (r : list (string * A)) :
  x ∈ od.values (od.remove k r) → x ∈ od.values r.
Proof.
  unfold od.values. induction r as [|[k' a'] r IH]; simpl; [done|].
  destruct (decide (k = k')); simpl; rewrite !elem_of_cons; naive_solver.
Qed.

Lemma od_get_values {A} k (a : A) (r : list (string * A)) :
  od.get k r = Some a → a ∈ od.values r.
Proof.
  unfold od.values. induction r as [|[k' a'] r IH]; simpl; [done|].
  destruct (decide (k = k')); rewrite elem_of_cons; naive_solver.
Qed.

Lemma step_case_values st name v st' w x :
  step_case u st name v st' w →
  x ∈ od.values (ret_dict st') → x = v ∨ x ∈ od.values (ret_dict st).
Proof.
  intros [_ [(_ & -> & _)|[(prev & k1 & k2 & _ & Hprev & _ & _ & -> & _)
                          |(cnt & k & _ & _ & _ & -> & _)]]];
    [apply od_values_set| |apply od_values_set].
  intros [->|[->|?]%od_values_remove%od_values_set]%od_values_set; auto.
  right. by eapply od_get_values.
Qed.

Lemma loop_values st idx xs st' x :
  loop u d st idx xs = Ok st' →
  x ∈ od.values (ret_dict st') →
  x ∈ od.values (ret_dict st) ∨ x ∈ od.values (named_items d idx xs).
Proof.
  revert st idx. induction xs as [|item xs IH]; intros st idx; simpl.
  - intros [= <-]. by left.
  - destruct (loop_body u d st idx item) as [st1|e] eqn:Hb; simpl; [|done].
    apply loop_body_Ok in Hb as (name & v & -> & Hcase).
    intros Hloop Hx. unfold od.values. simpl. rewrite elem_of_cons.
    destruct (IH _ _ Hloop Hx) as [Hx1|?]; [|by auto].
    destruct (step_case_values _ _ _ _ _ _ Hcase Hx1); auto.
Qed.

Lemma name_item_source idx item n v :
  name_item d idx item = Ok (n, v) → v = item ∨ item = OTuple [OStr n; v].
Proof.
  unfold name_item.
  destruct item as [| | |xs| | |];
    try (destruct (d idx _); simpl; intros [= _ <-]; by left).
  destruct xs as [|[] [|? [|]]]; try done. intros [= -> ->]. by right.
Qed.

Lemma named_items_source idx xs n v :
  (n, v) ∈ named_items d idx xs → v ∈ xs ∨ OTuple [OStr n; v] ∈ xs.
Proof.
  revert idx. induction xs as [|item xs IH]; intros idx; simpl.
  - by intros ?%elem_of_nil.
  - destruct (name_item d idx item) as [[n' v']|] eqn:Hname; [|by intros ?%elem_of_nil].
    rewrite !elem_of_cons. intros [[= -> ->]|Hin].
    + destruct (name_item_source _ _ _ _ Hname) as [->| ->]; auto.
    + destruct (IH _ Hin); auto.
Qed.

(** X2: the normaliser invents no value: every value of the registry is an
    item of the spec or the second component of a (name, item) pair of it. *)
Theorem normalizer_values_from_items (ds : obj V) reg v :
  _to_dict u d ds = Ok reg →
  v ∈ od.values reg →
  v ∈ items_of ds ∨ ∃ n, OTuple [OStr n; v] ∈ items_of ds.
Proof.
  destruct (_to_dict_cases u d ds) as [[-> ->]|[(o & kvs & -> & ->)
                                      |(xs & -> & -> & _ & _)]].
  - intros [= <-]. by intros ?%elem_of_nil.
  - intros [= <-]. by left.
  - destruct (loop u d init_state 0 xs) as [st|e] eqn:Hloop; simpl; [|done].
    intros [= <-] Hv.
    destruct (loop_values _ _ _ _ _ Hloop Hv) as [Hin|Hin].
    + by apply elem_of_nil in Hin.
    + unfold od.values in Hin. apply list_elem_of_fmap in Hin as ([n v'] & -> & Hin).
      destruct (named_items_source _ _ _ _ Hin); eauto.
Qed.

(** X3: the last item of a sequence is never lost: its value is in the
    registry under some key, so a non-empty sequence gives a non-empty
    registry. *)
Theorem normalizer_keeps_last xs item reg :
  _to_dict u d (OList (xs ++ [item])) = Ok reg →
  ∃ n v k, name_item d (length xs) item = Ok (n, v) ∧ od.get k reg = Some v.
Proof.
  simpl. rewrite loop_app.
  destruct (loop u d init_state 0 xs) as [st|e]; simpl; [|done].
  destruct (loop_body u d st (length xs) item) as [st1|e] eqn:Hb; simpl; [|done].
  intros [= <-].
  apply loop_body_Ok in Hb
    as (n & v & Hname & _ & [(_ & -> & _)|[(prev & k1 & k2 & _ & _ & _ & _ & -> & _)
                                           |(cnt & k & _ & _ & _ & -> & _)]]);
    exists n, v; eexists; (split; [done|]); apply od_get_set_eq.
Qed.
End normalizer_values.

(** ** The generic naming policy *)

Section to_dict_more.
Context {V : Type}.
Implicit Types (x : obj V) (xs : list (obj V)).

Lemma name_item_plain (d : nat → obj V → result string) idx x :
  is_tuple x = false → name_item d idx x = (name ← d idx x; Ok (name, x)).
Proof. by destruct x. Qed.

Lemma plain_pair_ok xs :
  Forall (fun x => is_tuple x = false) xs → Forall pair_ok xs.
Proof. intros Hxs. eapply Forall_impl; [exact Hxs|]. by intros []. Qed.

Lemma named_items_positions idx xs :
  Forall (fun x => is_tuple x = false) xs →
  named_items (generic_default_name_fn None) idx xs
  = imap (fun i x => (pretty (idx + i), x)) xs.
Proof.
  intros Hxs. revert idx. induction Hxs as [|x xs Hx _ IH]; intros idx; simpl; [done|].
  rewrite name_item_plain by done. simpl. rewrite Nat.add_0_r, IH. f_equal.
  apply imap_ext. intros i y _. simpl. by rewrite Nat.add_succ_r.
Qed.

Lemma positions_keys idx xs :
  od.keys (imap (fun i x => (pretty (idx + i), x)) xs) = pretty <$> seq idx (length xs).
Proof.
  unfold od.keys. revert idx. induction xs as [|x xs IH]; intros idx; simpl; [done|].
  rewrite Nat.add_0_r. f_equal. rewrite <- IH. f_equal.
  apply imap_ext. intros i y _. simpl. by rewrite Nat.add_succ_r.
Qed.

(** X4: without a default name, [to_dict] on items that are no tuples keys
    each item by its position, [str(idx)]. *)
Theorem to_dict_positions xs :
  Forall (fun x => is_tuple x = false) xs →
  to_dict (OList xs) None = Ok (imap (fun i x => (pretty i, x)) xs).
Proof.
  intros Hxs. unfold to_dict.
  rewrite _to_dict_distinct; [by rewrite named_items_positions| | |].
  - done.
  - by apply plain_pair_ok.
  - rewrite named_items_positions, positions_keys by done.
    apply (NoDup_fmap_2 _), NoDup_seq.
Qed.

(** Names of the form [s.k]. *)
Lemma dotted_ne (s t : string) : s +:+ "." +:+ t ≠ s.
Proof. induction s as [|c s IH]; simpl; [done|]. intros [= ?]. done. Qed.

Lemma dotted_inj (s : string) (a b : nat) :
  s +:+ "." +:+ pretty a = s +:+ "." +:+ pretty b → a = b.
Proof.
  intros Heq%(inj (String.app s)). injection Heq as Heq.
  change (pretty a = pretty b) in Heq. by apply (inj pretty) in Heq.
Qed.

Lemma loop_default_later (s : string) xs (st : loop_state V) idx c :
  Forall (fun x => is_tuple x = false) xs →
  counter st !! s = Some c → 2 ≤ c →
  (∀ j, c < j → s +:+ "." +:+ pretty j ∉ od.keys (ret_dict st)) →
  ∃ st', loop generic_unambiguous_name_fn (generic_default_name_fn (Some s)) st idx xs = Ok st'
         ∧ ret_dict st'
           = ret_dict st ++ imap (fun i x => (s +:+ "." +:+ pretty (c + 1 + i), x)) xs.
Proof.
  intros Hxs. revert st idx c.
  induction Hxs as [|x xs Hx _ IH]; intros st idx c Hc Hc2 Hfresh; simpl.
  - exists st. by rewrite app_nil_r.
  - unfold loop_body. rewrite name_item_plain by done. simpl. rewrite Hc. simpl.
    rewrite decide_False by lia. simpl.
    destruct (IH {| ret_dict := od.set (s +:+ "." +:+ pretty (c + 1)) x (ret_dict st);
                    counter := counter_update s (counter st) |} (S idx) (S c))
      as (st' & -> & Hret); simpl.
    + rewrite lookup_counter_update, decide_True by done. by rewrite Hc.
    + lia.
    + intros j Hj. rewrite od_elem_of_keys_set. intros [Heq%dotted_inj|Hin]; [lia|].
      apply (Hfresh j); [lia|done].
    + exists st'. split; [done|]. rewrite Hret. simpl.
      rewrite od_set_fresh by (apply Hfresh; lia).
      rewrite <- app_assoc. simpl. rewrite Nat.add_0_r. do 2 f_equal.
      apply imap_ext. intros i y _. simpl.
      by replace (c + 1 + S i) with (S c + 1 + i) by lia.
Qed.

(** X5: with the default name [s], [to_dict] on two or more items that are no
    tuples keys them [s.1], [s.2], ... in input order. *)
Theorem to_dict_default_name (s : string) xs :
  Forall (fun x => is_tuple x = false) xs → 2 ≤ length xs →
  to_dict (OList xs) (Some s)
  = Ok (imap (fun i x => (s +:+ "." +:+ pretty (S i), x)) xs).
Proof.
  intros Hxs Hlen. destruct xs as [|x0 [|x1 xs]]; simpl in Hlen; [lia..|].
  apply Forall_cons in Hxs as [Hx0 [Hx1 Hxs]%Forall_cons].
  unfold to_dict, _to_dict.
  change (x0 :: x1 :: xs) with ([x0; x1] ++ xs). rewrite loop_app.
  assert (∀ (i : nat) x, is_tuple x = false →
            name_item (generic_default_name_fn (Some s)) i x = Ok (s, x)) as Hname.
  { intros i x Hx. by rewrite name_item_plain. }
  rewrite (loop_two_same_name _ _ x0 x1 s x0 x1 (Hname 0 x0 Hx0) (Hname 1 x1 Hx1)).
  cbn [generic_unambiguous_name_fn mbind result_bind length Nat.add].
  rewrite rekey_single by apply dotted_ne.
  rewrite decide_False by (by intros ?%dotted_inj).
  match goal with
  | |- context [loop _ _ ?st0 2 xs] =>
      destruct (loop_default_later s xs st0 2 2 Hxs) as (st' & -> & Hret)
  end; simpl.
  - rewrite lookup_counter_update, decide_True by done.
    by rewrite lookup_counter_update, decide_True, lookup_empty by done.
  - done.
  - intros j Hj. unfold od.keys. simpl. rewrite !elem_of_cons.
    intros [?%dotted_inj|[?%dotted_inj|?%elem_of_nil]]; [lia..|done].
  - by rewrite Hret.
Qed.
End to_dict_more.

(** ** to_list *)

(** X6: [to_list] applied twice is [to_list] applied once, and on a spec that
    is not a mapping [_to_dict] reads the spec as [to_list] does. *)
Theorem to_list_normalizer {V : Type}
    (u : string → obj V → nat → result string) (d : nat → obj V → result string)
    (ds : obj V) :
  to_list (OList (to_list ds)) = to_list ds
  ∧ ((∀ o kvs, ds ≠ ODict o kvs) → _to_dict u d ds = _to_dict u d (OList (to_list ds))).
Proof.
  split; [done|]. intros Hdict. destruct ds as [| | | | |o kvs|]; try done.
  by destruct (Hdict o kvs).
Qed.

(** ** More on the metric naming policy *)

Section to_metric_dict_more.
Context {V : Type}.
Implicit Types (m : Metric V) (x y : obj V).

Lemma str_length_app (s t : string) :
  String.length (s +:+ t) = String.length s + String.length t.
Proof. induction s as [|c s IH]; simpl; [done|]. by rewrite IH. Qed.

Lemma metric_unambiguous_name_ne (name : string) m : metric_unambiguous_name name m ≠ name.
Proof.
  intros Heq%(f_equal String.length). unfold metric_unambiguous_name in Heq.
  destruct (label_name m); rewrite !str_length_app in Heq; simpl in Heq; lia.
Qed.

Lemma metric_unambiguous_name_fn_Ok (name : string) m c :
  metric_unambiguous_name_fn name (OMetric m) c = Ok (metric_unambiguous_name name m).
Proof. unfold metric_unambiguous_name_fn, metric_unambiguous_name. by destruct (label_name m). Qed.

Lemma named_items_metrics idx (ms : list (Metric V)) :
  named_items metric_default_name_fn idx (OMetric <$> ms)
  = (fun m => (metric_class m, OMetric m)) <$> ms.
Proof. revert idx. induction ms as [|m ms IH]; intros idx; simpl; [done|]. by rewrite IH. Qed.

Lemma check_metrics_metrics (ms : list (Metric V)) (f : Metric V → string) :
  check_metrics (od.values ((fun m => (f m, OMetric m)) <$> ms)) = Ok tt.
Proof. induction ms as [|m ms IH]; simpl; [done|]. apply IH. Qed.

(** X7: metrics whose class names ([__class__.__name__]) are pairwise
    distinct are registered under these names, in input order. *)
Theorem to_metric_dict_class_names (ms : list (Metric V)) :
  NoDup (metric_class <$> ms) →
  to_metric_dict (OList (OMetric <$> ms))
  = Ok ((fun m => (metric_class m, OMetric m)) <$> ms).
Proof.
  intros Hnd. unfold to_metric_dict.
  rewrite _to_dict_distinct.
  - rewrite named_items_metrics. simpl. by rewrite check_metrics_metrics.
  - done.
  - apply Forall_fmap, Forall_true. done.
  - rewrite named_items_metrics. unfold od.keys. by rewrite <- list_fmap_compose.
Qed.

(** X8: two metrics of one class are registered under
    [Class_pred] or [Class_pred_label]; when these two names coincide the
    registry keeps one entry, holding the second metric. *)
Theorem to_metric_dict_same_class m1 m2 :
  metric_class m1 = metric_class m2 →
  let k1 := metric_unambiguous_name (metric_class m1) m1 in
  let k2 := metric_unambiguous_name (metric_class m2) m2 in
  to_metric_dict (OList [OMetric m1; OMetric m2])
  = Ok (if decide (k2 = k1) then [(k1, OMetric m2)]
        else [(k1, OMetric m1); (k2, OMetric m2)]).
Proof.
  intros Hclass k1 k2. unfold to_metric_dict, _to_dict.
  rewrite (loop_two_same_name _ _ (OMetric m1) (OMetric m2) (metric_class m1)
             (OMetric m1) (OMetric m2)); [|done|by simpl; rewrite Hclass].
  rewrite !metric_unambiguous_name_fn_Ok. cbn [mbind result_bind ret_dict].
  rewrite rekey_single by apply metric_unambiguous_name_ne.
  subst k1 k2. rewrite <- Hclass. by destruct (decide _).
Qed.

End to_metric_dict_more.

(** ** More on the instance resolver *)

Section to_instance_more.
Context {V : Type}.
Variable get_instance : obj V → list (string * obj V) → list string → result (obj V).
Variable str : obj V → string.
Implicit Types (instance r : obj V) (kvs kw extra : list (string * obj V)).

(** X10: what [to_instance] returns is [None] for a [None] instance and an
    instance of the class asked for otherwise. *)
Theorem to_instance_result typ instance modules extra_kwargs r :
  to_instance get_instance str typ instance modules extra_kwargs = Ok r →
  (instance = ONone ∧ r = ONone) ∨ isinstance_of typ r = true.
Proof.
  unfold to_instance.
  destruct instance as [| | | | |o kvs|]; try (by intros [= <-]; left);
    try (simpl; destruct (isinstance_of typ _) eqn:Hi; [by intros [= <-]; right|done]).
  destruct (od.get "kwargs" kvs) as [[]|]; simpl; try done;
    (destruct (od.getitem "type" kvs); simpl; [|done]);
    (destruct (get_instance _ _ _) as [inst|]; simpl; [|done]);
    (destruct (isinstance_of typ inst) eqn:Hi; [by intros [= <-]; right|done]).
Qed.

(** X11: a descriptor without ['type'] raises [KeyError], and one whose
    ['kwargs'] is not a mapping raises [TypeError] before ['type'] is read. *)
Theorem to_instance_descriptor_errors typ o kvs modules extra_kwargs :
  (od.get "type" kvs = None →
   (od.get "kwargs" kvs = None ∨ ∃ o' kw, od.get "kwargs" kvs = Some (ODict o' kw)) →
   to_instance get_instance str typ (ODict o kvs) modules extra_kwargs
   = Raise (KeyError "type"))
  ∧ (∀ x, od.get "kwargs" kvs = Some x → (∀ o' kw, x ≠ ODict o' kw) →
       to_instance get_instance str typ (ODict o kvs) modules extra_kwargs
       = Raise (TypeError ("'" +:+ class_name x +:+ "' object is not a mapping"))).
Proof.
  unfold to_instance, od.getitem. split.
  - intros -> [->|(o' & kw & ->)]; done.
  - intros x -> Hx. destruct x as [| | | | |o' kw|]; try done. by destruct (Hx o' kw).
Qed.

Lemma dict_merge_lookup kw extra k :
  NoDup (od.keys extra) →
  od.get k (dict_merge kw extra)
  = match od.get k extra with Some v => Some v | None => od.get k kw end.
Proof.
  unfold dict_merge, od.keys. revert kw.
  induction extra as [|[k0 v0] extra IH]; intros kw; simpl; [done|].
  rewrite NoDup_cons. intros [Hk0 Hnd]. rewrite (IH _ Hnd).
  destruct (decide (k = k0)) as [->|Hne].
  - assert (od.get k0 extra = None) as -> by (by apply od_get_None).
    apply od_get_set_eq.
  - destruct (od.get k extra); [done|]. by apply od_get_set_ne.
Qed.

(** X12: for a descriptor with ['type'] and ['kwargs'], [get_instance] is
    called with the merged keyword arguments, in which [extra_kwargs] wins
    over ['kwargs'] on every key they share. *)
Theorem to_instance_descriptor typ o kvs ty o' kw extra modules :
  od.get "type" kvs = Some ty →
  od.get "kwargs" kvs = Some (ODict o' kw) →
  NoDup (od.keys extra) →
  to_instance get_instance str typ (ODict o kvs) modules (Some extra)
  = (inst ← get_instance ty (dict_merge kw extra) modules;
     if isinstance_of typ inst then Ok inst
     else Raise (ValueError ("The instance " +:+ str inst
                             +:+ " is not of type " +:+ type_str typ)))
  ∧ ∀ k, od.get k (dict_merge kw extra)
         = match od.get k extra with Some v => Some v | None => od.get k kw end.
Proof.
  intros Hty Hkw Hnd. split.
  - unfold to_instance, od.getitem. by rewrite Hkw, Hty.
  - intros k. by apply dict_merge_lookup.
Qed.
End to_instance_more.

(** ** More on ProgressTracker *)

(** X13: a tracker of size 0 raises [ZeroDivisionError] from [progress],
    whatever was added. *)
Theorem progress_zero_size (ns : list Z) :
  ProgressTracker.progress
    (foldl ProgressTracker.add (ProgressTracker.__init__ (Some 0%Z)) ns)
  = Raise ZeroDivisionError.
Proof. unfold ProgressTracker.progress. by rewrite size_after_adds. Qed.

Lemma tracker_eq (t1 t2 : ProgressTracker.t) :
  ProgressTracker.size t1 = ProgressTracker.size t2 →
  ProgressTracker.n_examples t1 = ProgressTracker.n_examples t2 → t1 = t2.
Proof. destruct t1, t2. simpl. by intros -> ->. Qed.

Lemma sum_permutation (ns ns' : list Z) :
  Permutation ns ns' → foldr Z.add 0%Z ns = foldr Z.add 0%Z ns'.
Proof. induction 1; simpl; lia. Qed.

(** X14: [add] accumulates: the order of the increments does not matter,
    [n_examples] is their sum and [size] stays what it was. *)
Theorem tracker_adds_accumulate (size0 : option Z) (ns ns' : list Z) :
  Permutation ns ns' →
  foldl ProgressTracker.add (ProgressTracker.__init__ size0) ns
  = foldl ProgressTracker.add (ProgressTracker.__init__ size0) ns'
  ∧ ProgressTracker.n_examples
      (foldl ProgressTracker.add (ProgressTracker.__init__ size0) ns)
    = foldr Z.add 0%Z ns
  ∧ ProgressTracker.size
      (foldl ProgressTracker.add (ProgressTracker.__init__ size0) ns)
    = size0.
Proof.
  intros Hperm. split_and!.
  - apply tracker_eq; rewrite ?size_after_adds, ?n_examples_after_adds; [done|].
    by rewrite (sum_permutation _ _ Hperm).
  - by rewrite n_examples_after_adds.
  - by rewrite size_after_adds.
Qed.

(** X15: before anything is added [progress] is zero, with the sign of the
    size. *)
Theorem progress_nothing_done (sz : Z) :
  sz ≠ 0%Z →
  ProgressTracker.progress (ProgressTracker.__init__ (Some sz))
  = Ok (Some (SpecFloat.S754_zero (sz <? 0)%Z)).
Proof.
  intros Hsz. unfold ProgressTracker.progress, pyfloat.int_truediv. simpl.
  rewrite decide_False by done. by destruct sz.
Qed.

(** ** More on MetricList *)

Section metric_list_more.
Context {V : Type} `{PyEq V}.
Implicit Types (self o : MetricList.t (V := V)) (ms : list (string * Metric V)).

Lemma current_values_go_notin ms (acc : gmap string V) name :
  name ∉ od.keys ms →
  foldl (fun acc nm => <[nm.1 := value nm.2]> acc) acc ms !! name = acc !! name.
Proof.
  unfold od.keys. revert acc. induction ms as [|[n0 m0] ms IH]; intros acc; simpl; [done|].
  rewrite not_elem_of_cons. intros [Hne Hnotin]. rewrite IH by done.
  by apply lookup_insert_ne.
Qed.

Lemma current_values_go_in ms (acc : gmap string V) name m :
  NoDup (od.keys ms) → (name, m) ∈ ms →
  foldl (fun acc nm => <[nm.1 := value nm.2]> acc) acc ms !! name = Some (value m).
Proof.
  unfold od.keys. revert acc. induction ms as [|[n0 m0] ms IH]; intros acc; simpl.
  - by intros _ ?%elem_of_nil.
  - rewrite NoDup_cons, elem_of_cons. intros [Hn0 Hnd] [[= -> ->]|Hin].
    + rewrite current_values_go_notin by done. apply lookup_insert_eq.
    + by apply IH.
Qed.

(** X16: a snapshot built without values holds, for a registry with unique
    keys, the current value of each metric under its key and nothing under
    other names. *)
Theorem snapshot_captures_values ms name :
  NoDup (od.keys ms) →
  (∀ m, (name, m) ∈ ms →
        MetricList.values (MetricList.__init__ ms None) !! name = Some (value m))
  ∧ (name ∉ od.keys ms →
     MetricList.values (MetricList.__init__ ms None) !! name = None).
Proof.
  intros Hnd. simpl. unfold MetricList.current_values. split.
  - intros m Hin. by apply current_values_go_in.
  - intros Hnotin. rewrite current_values_go_notin by done. apply lookup_empty.
Qed.

Lemma check_pairs_refl ms : MetricList.check_pairs (zip ms ms) = Ok tt.
Proof. rewrite check_pairs_same_length by done. by rewrite decide_True. Qed.

(** X17: a snapshot equals itself when it holds a value for every key and
    [==] is reflexive on these values. *)
Theorem eq_reflexive self :
  (∀ name, name ∈ od.keys (MetricList.metrics self) →
           ∃ x, MetricList.values self !! name = Some x ∧ py_eq x x = true) →
  MetricList.__eq__ self (MetricList.IsMetricList self) = Ok true.
Proof.
  intros Hvals. unfold MetricList.__eq__, MetricList._compare_metrics.
  rewrite check_pairs_refl. simpl.
  induction (od.keys (MetricList.metrics self)) as [|name names IH]; simpl; [done|].
  destruct (Hvals name) as (x & Hx & Hxx); [apply elem_of_cons; by left|].
  unfold MetricList.getvalue. rewrite Hx. simpl. rewrite Hxx.
  apply IH. intros n Hn. apply Hvals, elem_of_cons. by right.
Qed.

Lemma shape_keys ms ms' :
  MetricList.shape ms = MetricList.shape ms' → od.keys ms = od.keys ms'.
Proof.
  intros Hs%(f_equal (fmap fst)). unfold MetricList.shape in Hs.
  by rewrite <- !list_fmap_compose in Hs.
Qed.

Lemma all_equal_sym (a b : gmap string V) names r :
  (∀ x y, py_eq x y = py_eq y x) →
  MetricList.all_equal a b names = Ok r → MetricList.all_equal b a names = Ok r.
Proof.
  intros Hsym. induction names as [|name names IH]; simpl; [done|].
  unfold MetricList.getvalue.
  destruct (a !! name) as [x|]; simpl; [|done].
  destruct (b !! name) as [y|]; simpl; [|done].
  rewrite (Hsym y x). by destruct (py_eq x y).
Qed.

(** X18: for registries of the same length and a symmetric [==], [__eq__]
    answers the same in both directions. *)
Theorem eq_symmetric self o r :
  (∀ x y, py_eq x y = py_eq y x) →
  length (MetricList.metrics self) = length (MetricList.metrics o) →
  MetricList.__eq__ self (MetricList.IsMetricList o) = Ok r →
  MetricList.__eq__ o (MetricList.IsMetricList self) = Ok r.
Proof.
  intros Hsym Hlen. unfold MetricList.__eq__, MetricList._compare_metrics.
  rewrite !check_pairs_same_length by done.
  destruct (decide (MetricList.shape (MetricList.metrics self)
                    = MetricList.shape (MetricList.metrics o))) as [Hs|]; [|done].
  rewrite decide_True by done. simpl.
  rewrite (shape_keys _ _ Hs). by apply all_equal_sym.
Qed.

(** X19: [_compare_metrics] passes exactly when the two registries have the
    same keys and the same class objects, in order, up to the length of the
    shorter one, and it gives the same outcome in both directions. *)
Theorem compare_metrics_common_prefix self o :
  let n := length (MetricList.metrics self) `min` length (MetricList.metrics o) in
  MetricList._compare_metrics self (MetricList.IsMetricList o)
  = (if decide (take n (MetricList.shape (MetricList.metrics self))
                = take n (MetricList.shape (MetricList.metrics o)))
     then Ok tt else Raise MetricList.different_base_metrics)
  ∧ MetricList._compare_metrics self (MetricList.IsMetricList o)
    = MetricList._compare_metrics o (MetricList.IsMetricList self).
Proof.
  assert (∀ ms ms',
    MetricList.check_pairs (zip ms ms')
    = if decide (take (length ms `min` length ms') (MetricList.shape ms)
                 = take (length ms `min` length ms') (MetricList.shape ms'))
      then Ok tt else Raise MetricList.different_base_metrics) as Hgen.
  { induction ms as [|a ms IH]; intros [|b ms']; try done.
    cbn [zip zip_with length Nat.min]. rewrite check_pairs_cons, IH.
    change (MetricList.shape (a :: ms))
      with ((a.1, metric_type a.2) :: MetricList.shape ms).
    change (MetricList.shape (b :: ms'))
      with ((b.1, metric_type b.2) :: MetricList.shape ms').
    cbn [take].
    destruct (decide (a.1 = b.1 ∧ _)) as [(H1 & H2)|Hne].
    - destruct (decide (take _ (MetricList.shape ms) = take _ (MetricList.shape ms')))
        as [Heq|Hneq].
      + rewrite decide_True; [done|]. by rewrite H1, H2, Heq.
      + rewrite decide_False; [done|]. by intros [= _ _ ?].
    - rewrite decide_False; [done|]. intros [= ? ? _]. by destruct Hne. }
  intros n. unfold MetricList._compare_metrics. split; [apply Hgen|].
  rewrite !Hgen. rewrite (Nat.min_comm (length (MetricList.metrics o))).
  destruct (decide (take _ (MetricList.shape (MetricList.metrics self)) = _)) as [Heq|Hne].
  - by rewrite decide_True.
  - by rewrite decide_False.
Qed.

Lemma first_better_swap (a b : gmap string V) ms :
  antisymmetric_better ms →
  MetricList.first_better a b ms = Ok true → MetricList.first_better b a ms = Ok false.
Proof.
  induction 1 as [|[name m] ms Hm _ IH]; simpl; [done|].
  unfold MetricList.getvalue.
  destruct (a !! name) as [x|]; simpl; [|done].
  destruct (b !! name) as [y|]; simpl; [|done].
  simpl in Hm. rewrite (Hm x y). by destruct (better m x y) as [[]|].
Qed.

Lemma first_better_self (a : gmap string V) ms :
  antisymmetric_better ms → MetricList.first_better a a ms ≠ Ok true.
Proof.
  intros Hanti Htrue. pose proof (first_better_swap a a ms Hanti Htrue). congruence.
Qed.

(** X20: on one registry whose metrics have an antisymmetric [better],
    [__gt__] is asymmetric and no snapshot is greater than itself. *)
Theorem gt_asymmetric self o :
  MetricList.metrics self = MetricList.metrics o →
  antisymmetric_better (MetricList.metrics self) →
  (MetricList.__gt__ self (MetricList.IsMetricList o) = Ok true →
   MetricList.__gt__ o (MetricList.IsMetricList self) = Ok false)
  ∧ MetricList.__gt__ self (MetricList.IsMetricList self) ≠ Ok true.
Proof.
  intros Hms Hanti. unfold MetricList.__gt__, MetricList._compare_metrics.
  rewrite <- Hms, !check_pairs_refl. simpl. split.
  - by apply first_better_swap.
  - by apply first_better_self.
Qed.

(** X21: when the snapshot lacks the value of a key, and the metrics before
    it hold equal values that tie, both comparisons raise [KeyError] for
    that key. *)
Theorem compare_missing_value self o pre name m post :
  MetricList._compare_metrics self (MetricList.IsMetricList o) = Ok tt →
  MetricList.metrics self = pre ++ (name, m) :: post →
  Forall (fun nm => ∃ x y, MetricList.values self !! nm.1 = Some x
                           ∧ MetricList.values o !! nm.1 = Some y
                           ∧ py_eq x y = true ∧ better nm.2 x y = None) pre →
  MetricList.values self !! name = None →
  MetricList.__eq__ self (MetricList.IsMetricList o) = Raise (KeyError name)
  ∧ MetricList.__gt__ self (MetricList.IsMetricList o) = Raise (KeyError name).
Proof.
  intros Hcmp Hms Hpre Hname. unfold MetricList.__eq__, MetricList.__gt__.
  rewrite Hcmp, Hms. simpl. clear Hcmp Hms. unfold od.keys.
  induction Hpre as [|[n0 m0] pre (x & y & Hx & Hy & Heq & Htie) _ IH]; simpl in *;
    unfold MetricList.getvalue.
  - by rewrite Hname.
  - rewrite Hx, Hy. simpl. by rewrite Heq, Htie.
Qed.
End metric_list_more.

(** ** update_metrics *)

Section update_metrics_facts.
Context {V : Type}.
Variable add : Metric V → list (obj V) → option (list (obj V)) → result unit.
Implicit Types (rd batch : gmap string (update.field (V := V)))
  (ms pre post : list (string * Metric V)) (m : Metric V).

Lemma call_for_present rd batch nm :
  is_Some (update.call_for rd batch nm) ↔ update.fields_present rd batch nm.
Proof.
  destruct nm as [name m]. unfold update.call_for, update.fields_present, update.label_of.
  simpl. destruct (rd !! pred_name m) as [pv|]; simpl.
  - destruct (label_name m) as [l|]; simpl.
    + destruct (batch !! l) as [lv|] eqn:Hl; simpl.
      * split; [|by eauto]. intros _. split; [by eauto|]. intros l' [= <-]. by rewrite Hl.
      * split; [by intros [? ?]|]. intros [_ Hlab]. destruct (Hlab l eq_refl) as [? Hs].
        by rewrite Hl in Hs.
    + split; [|by eauto]. intros _. split; [by eauto|done].
  - split; [by intros [? ?]|]. by intros [[? ?] _].
Qed.

(** One metric at a time. *)
Lemma update_metrics_cons rd batch name m rest :
  update.update_metrics add rd batch ((name, m) :: rest)
  = match update.call_for rd batch (name, m) with
    | Some c =>
        match update.add_outcome add (name, m) c with
        | Ok _ => (c :: (update.update_metrics add rd batch rest).1,
                   (update.update_metrics add rd batch rest).2)
        | Raise e => ([], Raise e)
        end
    | None =>
        ([], Raise (match rd !! pred_name m, label_name m with
                    | Some _, Some l => update.missing_label name l
                    | _, _ => update.missing_pred name m
                    end))
    end.
Proof.
  unfold update.call_for, update.add_outcome, update.label_of. simpl.
  unfold update.label_of.
  destruct (rd !! pred_name m) as [pv|]; [|done].
  destruct (label_name m) as [l|]; [|done]. by destruct (batch !! l).
Qed.

Lemma update_metrics_app rd batch pre post :
  (update.update_metrics add rd batch pre).2 = Ok tt →
  update.update_metrics add rd batch (pre ++ post)
  = ((update.update_metrics add rd batch pre).1
     ++ (update.update_metrics add rd batch post).1,
     (update.update_metrics add rd batch post).2).
Proof.
  induction pre as [|[name m] pre IH].
  - intros _. simpl. by destruct (update.update_metrics add rd batch post).
  - cbn [app]. rewrite !update_metrics_cons.
    destruct (update.call_for rd batch (name, m)); simpl; [|done].
    destruct (update.add_outcome add (name, m) _); simpl; [|done].
    intros Hok. by rewrite (IH Hok).
Qed.

Lemma update_metrics_updated rd batch ms :
  (update.update_metrics add rd batch ms).2 = Ok tt
  ↔ Forall (update.updated add rd batch) ms.
Proof.
  induction ms as [|[name m] ms IH].
  - simpl. by split; [constructor|].
  - rewrite update_metrics_cons, Forall_cons, <- IH. unfold update.updated.
    destruct (update.call_for rd batch (name, m)) as [c|]; simpl.
    + destruct (update.add_outcome add (name, m) c) as [[]|e] eqn:Hadd; simpl.
      * split; [by eauto|by intros [_ ?]].
      * split; [done|]. intros [(c' & [= <-] & Hc') _]. congruence.
    + split; [done|]. by intros [(c' & ? & _) _].
Qed.

(** X22: [update_metrics] succeeds exactly when every metric finds its
    fields and its [add] returns; the calls that returned are then one per
    metric, in registry order, with the values turned into lists.  A run
    that fails does so with the [ValueError] of a missing field or with
    what an [add] raised. *)
Theorem update_metrics_success rd batch ms :
  ((update.update_metrics add rd batch ms).2 = Ok tt
   ↔ Forall (update.updated add rd batch) ms)
  ∧ ((update.update_metrics add rd batch ms).2 = Ok tt →
     update.call_metric <$> (update.update_metrics add rd batch ms).1 = od.keys ms
     ∧ Forall2 (fun nm c => update.call_for rd batch nm = Some c)
         ms (update.update_metrics add rd batch ms).1)
  ∧ ((update.update_metrics add rd batch ms).2 = Ok tt
     ∨ (∃ msg, (update.update_metrics add rd batch ms).2 = Raise (ValueError msg))
     ∨ (∃ nm c e, nm ∈ ms ∧ update.call_for rd batch nm = Some c
                  ∧ update.add_outcome add nm c = Raise e
                  ∧ (update.update_metrics add rd batch ms).2 = Raise e)).
Proof.
  split; [apply update_metrics_updated|].
  induction ms as [|[name m] ms (IHcalls & IHerr)].
  - simpl. split; [|by left]. intros _. split; [done|constructor].
  - rewrite update_metrics_cons.
    destruct (update.call_for rd batch (name, m)) as [c|] eqn:Hc; simpl.
    + destruct (update.add_outcome add (name, m) c) as [[]|e] eqn:Hadd; simpl.
      * split.
        -- intros Hok. destruct (IHcalls Hok) as [Hnames Hall]. split.
           ++ unfold update.call_for in Hc. simpl in Hc.
              destruct (rd !! pred_name m), (update.label_of batch name m);
                simplify_eq. simpl. by f_equal.
           ++ by constructor.
        -- destruct IHerr as [?|[?|(nm & c' & e & Hin & ? & ? & ?)]]; [by left|by right; left|].
           right; right. exists nm, c', e. split_and!; try done.
           apply elem_of_cons. by right.
      * split; [done|]. right; right. exists (name, m), c, e.
        split_and!; try done. apply elem_of_cons. by left.
    + split; [done|]. right; left.
      destruct (rd !! pred_name m), (label_name m); by eexists.
Qed.

(** X23: the run stops at the first metric that misses a field or whose
    [add] raises, with the [ValueError] for that field and metric or with
    the exception of [add]; the metrics before it have been updated, as in
    a run on them alone. *)
Theorem update_metrics_first_failure rd batch pre name m post :
  Forall (update.updated add rd batch) pre →
  (update.update_metrics add rd batch pre).2 = Ok tt
  ∧ (rd !! pred_name m = None →
     update.update_metrics add rd batch (pre ++ (name, m) :: post)
     = ((update.update_metrics add rd batch pre).1,
        Raise (update.missing_pred name m)))
  ∧ (∀ l, is_Some (rd !! pred_name m) → label_name m = Some l → batch !! l = None →
     update.update_metrics add rd batch (pre ++ (name, m) :: post)
     = ((update.update_metrics add rd batch pre).1,
        Raise (update.missing_label name l)))
  ∧ (∀ c e, update.call_for rd batch (name, m) = Some c →
     update.add_outcome add (name, m) c = Raise e →
     update.update_metrics add rd batch (pre ++ (name, m) :: post)
     = ((update.update_metrics add rd batch pre).1, Raise e)).
Proof.
  intros Hok%update_metrics_updated. split_and!; [done|..].
  - intros Hpred. rewrite update_metrics_app by done. simpl. rewrite Hpred.
    by rewrite app_nil_r.
  - intros l [pv Hpv] Hl Hbatch. rewrite update_metrics_app by done. simpl.
    rewrite Hpv. unfold update.label_of. rewrite Hl, Hbatch. by rewrite app_nil_r.
  - intros c e Hc Hadd. rewrite update_metrics_app by done.
    rewrite update_metrics_cons, Hc, Hadd. simpl. by rewrite app_nil_r.
Qed.
End update_metrics_facts.

(** ** Terminal colours *)

Lemma lower_ascii_idemp (c : Ascii.ascii) : term.lower_ascii (term.lower_ascii c) = term.lower_ascii c.
Proof. by destruct c as [[] [] [] [] [] [] [] []]. Qed.

Lemma lower_idemp (s : string) : term.lower (term.lower s) = term.lower s.
Proof. induction s as [|c s IH]; simpl; [done|]. by rewrite lower_ascii_idemp, IH. Qed.

Lemma str_app_inj_r (s s' t : string) : s +:+ t = s' +:+ t → s = s'.
Proof.
  assert (∀ c (r : string), t ≠ String c (r +:+ t)) as Hlonger.
  { intros c r Heq%(f_equal String.length). cbn [String.length] in Heq.
    rewrite str_length_app in Heq. lia. }
  revert s'. induction s as [|c s IH]; intros [|c' s'];
    cbn [String.append]; intros Heq.
  - done.
  - by destruct (Hlonger c' s').
  - by destruct (Hlonger c s).
  - injection Heq as -> Heq. f_equal. by apply IH.
Qed.

Lemma od_get_elem_of {A} (k : string) (a : A) (r : list (string * A)) :
  od.get k r = Some a → (k, a) ∈ r.
Proof.
  induction r as [|[k' a'] r IH]; simpl; [done|].
  destruct (decide (k = k')) as [->|]; rewrite elem_of_cons; [|by auto].
  intros [= ->]. by left.
Qed.

(** X24: for an ASCII colour name, [color] does not depend on letter case,
    succeeds exactly on the eight names of the palette and raises
    [KeyError] with the lower-cased name otherwise. *)
Theorem color_spec (s col : string) :
  term.ascii_only col →
  term.color s (term.lower col) = term.color s col
  ∧ (is_ok (term.color s col) ↔ term.lower col ∈ term.palette)
  ∧ (term.lower col ∉ term.palette →
     term.color s col = Raise (KeyError (term.lower col))).
Proof.
  intros _. unfold term.color, od.getitem. rewrite lower_idemp.
  change term.palette with (od.keys term.COLOR_CODE).
  split_and!.
  - done.
  - rewrite <- od_get_Some.
    destruct (od.get (term.lower col) term.COLOR_CODE); simpl; split; try done; eauto.
  - intros Hnot%od_get_None. by rewrite Hnot.
Qed.

(** X25: a coloured string is the five-byte colour code, the text and the
    reset code, nine bytes longer than the text, and the text can be read
    back from it. *)
Theorem color_wraps (s col r : string) :
  term.color s col = Ok r →
  (∃ code, (term.lower col, code) ∈ term.COLOR_CODE
           ∧ String.length code = 5
           ∧ r = code +:+ s +:+ term.RESET_CODE)
  ∧ String.length r = String.length s + 9
  ∧ (∀ s', term.color s' col = Ok r → s' = s).
Proof.
  unfold term.color, od.getitem.
  destruct (od.get (term.lower col) term.COLOR_CODE) as [code|] eqn:Hcode; simpl; [|done].
  intros [= <-].
  assert (String.length code = 5) as Hlen.
  { apply od_get_elem_of in Hcode. unfold term.COLOR_CODE in Hcode.
    repeat (apply elem_of_cons in Hcode as [[= _ ->]|Hcode]; [done|]).
    by apply elem_of_nil in Hcode. }
  split_and!.
  - exists code. split_and!; [by apply od_get_elem_of|done..].
  - rewrite !str_length_app, Hlen. simpl. lia.
  - intros s' [= Heq%(inj (String.app code))]. by apply str_app_inj_r in Heq.
Qed.

(** ** The properties above at concrete inputs *)

Lemma normalizer_distinct_names_witness :
  _to_dict (V := Z) generic_unambiguous_name_fn (generic_default_name_fn None)
    (OList [OInt 5; OTuple [OStr "a"; OInt 6]])
  = Ok [("0", OInt 5); ("a", OInt 6)].
Proof.
  apply (normalizer_distinct_names (V := Z) generic_unambiguous_name_fn
           (generic_default_name_fn None) [OInt 5; OTuple [OStr "a"; OInt 6]]).
  - done.
  - repeat constructor.
  - vm_compute. repeat constructor; set_solver.
Defined.

Lemma normalizer_values_from_items_witness :
  OInt (V := Z) 6 ∈ items_of (V := Z) (OList [OInt 5; OTuple [OStr "a"; OInt 6]])
  ∨ ∃ n, OTuple [OStr n; OInt 6]
         ∈ items_of (V := Z) (OList [OInt 5; OTuple [OStr "a"; OInt 6]]).
Proof.
  apply (normalizer_values_from_items (V := Z) generic_unambiguous_name_fn
           (generic_default_name_fn None) (OList [OInt 5; OTuple [OStr "a"; OInt 6]])
           [("0", OInt 5); ("a", OInt 6)] (OInt 6)).
  - vm_compute; reflexivity.
  - apply list_elem_of_further, list_elem_of_here.
Defined.

Lemma normalizer_keeps_last_witness :
  ∃ n v k,
    name_item (V := Z) (generic_default_name_fn (Some "m")) 1 (OInt 6) = Ok (n, v)
    ∧ od.get k [("m.1", OInt 5); ("m.2", OInt 6)] = Some v.
Proof.
  apply (normalizer_keeps_last (V := Z) generic_unambiguous_name_fn
           (generic_default_name_fn (Some "m")) [OInt 5] (OInt 6)).
  vm_compute; reflexivity.
Defined.

Lemma to_dict_positions_witness :
  to_dict (V := Z) (OList [OInt 5; OStr "x"]) None = Ok [("0", OInt 5); ("1", OStr "x")].
Proof.
  apply (to_dict_positions (V := Z) [OInt 5; OStr "x"]). by repeat constructor.
Defined.

Lemma to_dict_default_name_witness :
  to_dict (V := Z) (OList [OInt 5; OInt 6; OInt 7]) (Some "m")
  = Ok [("m.1", OInt 5); ("m.2", OInt 6); ("m.3", OInt 7)].
Proof.
  apply (to_dict_default_name (V := Z) "m" [OInt 5; OInt 6; OInt 7]).
  - by repeat constructor.
  - simpl. lia.
Defined.

Lemma to_list_normalizer_witness :
  _to_dict (V := Z) generic_unambiguous_name_fn (generic_default_name_fn None) (OInt 5)
  = _to_dict generic_unambiguous_name_fn (generic_default_name_fn None)
      (OList (to_list (OInt 5))).
Proof.
  apply (proj2 (to_list_normalizer (V := Z) generic_unambiguous_name_fn
                  (generic_default_name_fn None) (OInt 5))).
  discriminate.
Defined.

Lemma to_metric_dict_class_names_witness :
  to_metric_dict (OList [OMetric samples.accuracy; OMetric samples.tying])
  = Ok [("Accuracy", OMetric samples.accuracy); ("Average", OMetric samples.tying)].
Proof.
  apply (to_metric_dict_class_names [samples.accuracy; samples.tying]).
  vm_compute. repeat constructor; set_solver.
Defined.

Lemma to_metric_dict_same_class_witness :
  to_metric_dict (OList [OMetric samples.accuracy; OMetric samples.accuracy])
  = Ok [("Accuracy_preds_label", OMetric samples.accuracy)].
Proof. exact (to_metric_dict_same_class samples.accuracy samples.accuracy eq_refl). Defined.


Lemma to_instance_result_witness :
  (OInt (V := Z) 3 = ONone ∧ OInt (V := Z) 3 = ONone)
  ∨ isinstance_of
      {| type_str := "<class 'int'>";
         isinstance_of := fun x : obj Z => match x with OInt _ => true | _ => false end |}
      (OInt 3) = true.
Proof.
  exact (to_instance_result (V := Z) (fun _ _ _ => Ok ONone) (fun _ => "3")
           {| type_str := "<class 'int'>";
              isinstance_of := fun x => match x with OInt _ => true | _ => false end |}
           (OInt 3) [] None (OInt 3) eq_refl).
Defined.

Lemma to_instance_descriptor_errors_witness :
  to_instance (V := Z) (fun _ _ _ => Ok ONone) (fun _ => "")
    {| type_str := "T"; isinstance_of := fun _ => true |}
    (ODict false [("kwargs", ODict false [])]) [] None
  = Raise (KeyError "type")
  ∧ to_instance (V := Z) (fun _ _ _ => Ok ONone) (fun _ => "")
      {| type_str := "T"; isinstance_of := fun _ => true |}
      (ODict false [("type", OStr "T"); ("kwargs", OInt 1)]) [] None
    = Raise (TypeError "'int' object is not a mapping").
Proof.
  split.
  - apply (proj1 (to_instance_descriptor_errors (V := Z) _ _ _ false
                    [("kwargs", ODict false [])] [] None)); [done|].
    right. by exists false, [].
  - apply (proj2 (to_instance_descriptor_errors (V := Z) _ _ _ false
                    [("type", OStr "T"); ("kwargs", OInt 1)] [] None) (OInt 1));
      [done|discriminate].
Defined.

Lemma to_instance_descriptor_witness :
  od.get "a" (dict_merge (V := Z) [("a", OInt 1); ("b", OInt 3)] [("a", OInt 2)])
  = Some (OInt 2).
Proof.
  refine (proj2 (to_instance_descriptor (V := Z) (fun _ _ _ => Ok ONone) (fun _ => "")
                   {| type_str := "T"; isinstance_of := fun _ => true |} false
                   [("type", OStr "T"); ("kwargs", ODict false [("a", OInt 1); ("b", OInt 3)])]
                   (OStr "T") false [("a", OInt 1); ("b", OInt 3)] [("a", OInt 2)] []
                   eq_refl eq_refl _) "a").
  vm_compute. repeat constructor; set_solver.
Defined.

Lemma tracker_adds_accumulate_witness :
  foldl ProgressTracker.add (ProgressTracker.__init__ (Some 10%Z)) [1%Z; 2%Z]
  = foldl ProgressTracker.add (ProgressTracker.__init__ (Some 10%Z)) [2%Z; 1%Z].
Proof.
  apply (tracker_adds_accumulate (Some 10%Z) [1%Z; 2%Z] [2%Z; 1%Z]). apply perm_swap.
Defined.

Lemma progress_nothing_done_witness :
  ProgressTracker.progress (ProgressTracker.__init__ (Some 200%Z))
  = Ok (Some (SpecFloat.S754_zero false)).
Proof. apply (progress_nothing_done 200%Z). discriminate. Defined.

Lemma snapshot_captures_values_witness :
  MetricList.values (MetricList.__init__ [("acc", samples.accuracy)] None) !! "acc"
  = Some 0%Z
  ∧ MetricList.values (MetricList.__init__ [("acc", samples.accuracy)] None) !! "f1"
    = None.
Proof.
  assert (NoDup (od.keys [("acc", samples.accuracy)])) as Hnd
    by (apply NoDup_singleton).
  split.
  - apply (proj1 (snapshot_captures_values [("acc", samples.accuracy)] "acc" Hnd)
             samples.accuracy).
    apply list_elem_of_here.
  - apply (proj2 (snapshot_captures_values [("acc", samples.accuracy)] "f1" Hnd)).
    by intros [=]%list_elem_of_singleton.
Defined.

Lemma eq_reflexive_witness :
  MetricList.__eq__
    (MetricList.__init__ [("acc", samples.accuracy)] (Some {[ "acc" := 1%Z ]}))
    (MetricList.IsMetricList
       (MetricList.__init__ [("acc", samples.accuracy)] (Some {[ "acc" := 1%Z ]})))
  = Ok true.
Proof.
  apply eq_reflexive. intros name Hin%list_elem_of_singleton. subst name.
  exists 1%Z. by split.
Defined.

Lemma eq_symmetric_witness :
  MetricList.__eq__
    (MetricList.__init__ [("acc", samples.accuracy)] (Some {[ "acc" := 2%Z ]}))
    (MetricList.IsMetricList
       (MetricList.__init__ [("acc", samples.accuracy)] (Some {[ "acc" := 1%Z ]})))
  = Ok false.
Proof.
  apply (eq_symmetric
           (MetricList.__init__ [("acc", samples.accuracy)] (Some {[ "acc" := 1%Z ]}))
           (MetricList.__init__ [("acc", samples.accuracy)] (Some {[ "acc" := 2%Z ]}))).
  - intros x y. apply Z.eqb_sym.
  - done.
  - vm_compute; reflexivity.
Defined.

Lemma larger_is_better_antisymmetric (x y : Z) :
  samples.larger_is_better y x = negb <$> samples.larger_is_better x y.
Proof.
  unfold samples.larger_is_better.
  destruct (Z.ltb_spec x y), (Z.ltb_spec y x); simpl; try done; lia.
Qed.

Lemma gt_asymmetric_witness :
  MetricList.__gt__
    (MetricList.__init__ [("acc", samples.accuracy)] (Some {[ "acc" := 1%Z ]}))
    (MetricList.IsMetricList
       (MetricList.__init__ [("acc", samples.accuracy)] (Some {[ "acc" := 2%Z ]})))
  = Ok false.
Proof.
  refine (proj1 (gt_asymmetric
                   (MetricList.__init__ [("acc", samples.accuracy)] (Some {[ "acc" := 2%Z ]}))
                   (MetricList.__init__ [("acc", samples.accuracy)] (Some {[ "acc" := 1%Z ]}))
                   eq_refl _) _).
  - apply Forall_singleton. intros x y. apply larger_is_better_antisymmetric.
  - vm_compute; reflexivity.
Defined.

Lemma compare_missing_value_witness :
  MetricList.__eq__
    (MetricList.__init__ [("acc", samples.accuracy)] (Some ∅))
    (MetricList.IsMetricList
       (MetricList.__init__ [("acc", samples.accuracy)] (Some {[ "acc" := 2%Z ]})))
  = Raise (KeyError "acc").
Proof.
  refine (proj1 (compare_missing_value
                   (MetricList.__init__ [("acc", samples.accuracy)] (Some ∅))
                   (MetricList.__init__ [("acc", samples.accuracy)] (Some {[ "acc" := 2%Z ]}))
                   [] "acc" samples.accuracy [] _ eq_refl (Forall_nil_2 _) _));
    vm_compute; reflexivity.
Defined.

Lemma update_metrics_success_witness :
  update.call_metric
    <$> (update.update_metrics samples.paired_add
           {[ "preds" := update.Plain (OList [OInt 1; OInt 0]) ]}
           {[ "label" := update.Tensor (OList [OInt 1; OInt 1]) ]}
           [("acc", samples.accuracy)]).1
  = ["acc"].
Proof.
  apply (proj1 (proj2 (update_metrics_success samples.paired_add
                         {[ "preds" := update.Plain (OList [OInt 1; OInt 0]) ]}
                         {[ "label" := update.Tensor (OList [OInt 1; OInt 1]) ]}
                         [("acc", samples.accuracy)]))).
  vm_compute; reflexivity.
Defined.

Lemma update_metrics_first_failure_witness :
  update.update_metrics samples.paired_add
    {[ "preds" := update.Plain (OList [OInt 1; OInt 0]) ]}
    {[ "label" := update.Tensor (OList [OInt 1; OInt 1]) ]}
    [("acc", samples.accuracy); ("loss", samples.tying)]
  = ([{| update.call_metric := "acc"; update.call_pred := [OInt 1; OInt 0];
         update.call_label := Some [OInt 1; OInt 1] |}],
     Raise (ValueError ("Return dictionary from model does not contain 'loss' entry, "
                        +:+ "which was required for metric 'loss'")))
  ∧ update.update_metrics samples.paired_add
      {[ "preds" := update.Plain (OList [OInt 1; OInt 0]) ]}
      {[ "label" := update.Tensor (OInt 1) ]}
      [("acc", samples.accuracy)]
    = ([], Raise (ValueError "predictions and labels differ in length")).
Proof.
  split.
  - refine (proj1 (proj2 (update_metrics_first_failure samples.paired_add
                            {[ "preds" := update.Plain (OList [OInt 1; OInt 0]) ]}
                            {[ "label" := update.Tensor (OList [OInt 1; OInt 1]) ]}
                            [("acc", samples.accuracy)] "loss" samples.tying [] _)) _).
    + apply Forall_singleton. eexists. split; vm_compute; reflexivity.
    + vm_compute; reflexivity.
  - refine (proj2 (proj2 (proj2 (update_metrics_first_failure samples.paired_add
                            {[ "preds" := update.Plain (OList [OInt 1; OInt 0]) ]}
                            {[ "label" := update.Tensor (OInt 1) ]}
                            [] "acc" samples.accuracy [] (Forall_nil_2 _))))
              {| update.call_metric := "acc"; update.call_pred := [OInt 1; OInt 0];
                 update.call_label := Some [OInt 1] |} _ _ _);
      vm_compute; reflexivity.
Defined.

Lemma color_spec_witness :
  term.color "ok" "green" = term.color "ok" "GrEEn"
  ∧ term.color "ok" "pink" = Raise (KeyError "pink").
Proof.
  split.
  - apply (color_spec "ok" "GrEEn"). repeat constructor; vm_compute; lia.
  - apply (color_spec "ok" "pink"); [repeat constructor; vm_compute; lia|].
    vm_compute. set_solver.
Defined.

Lemma color_wraps_witness :
  String.length (term.ESC +:+ "[31m" +:+ "ok" +:+ term.RESET_CODE) = 2 + 9.
Proof.
  apply (proj1 (proj2 (color_wraps "ok" "Red"
                         (term.ESC +:+ "[31m" +:+ "ok" +:+ term.RESET_CODE) eq_refl))).
Defined.

(** ** The normaliser on arbitrary names *)

(** *** The two embeddings agree on [str] names *)

Section dyn_refinement.
Context {V : Type}.
Variable object_id : Metric V → N.
Variable repr : obj V → string.
Variable u : string → obj V → nat → result string.
Variable d : nat → obj V → result string.
Variable ud : obj V → obj V → nat → result (obj V).
Variable dd : nat → obj V → result (obj V).
Hypothesis ud_spec : ∀ n v c, ud (OStr n) v c = OStr <$> u n v c.
Hypothesis dd_spec : ∀ i v, dd i v = OStr <$> d i v.

Lemma key_eq_OStr (n : string) (k : obj V) :
  dyn.key_eq object_id (OStr n) k = true ↔ k = OStr n.
Proof.
  destruct k; simpl; try (split; [done|by intros [=]]).
  rewrite bool_decide_eq_true. split; [by intros ->|by intros [= ->]].
Qed.

Lemma key_eq_OStr_decide (n n' : string) :
  dyn.key_eq object_id (OStr n) (OStr n') = bool_decide (n = n').
Proof. done. Qed.

Lemma dyn_get_of_registry (k : string) (r : list (string * obj V)) :
  dyn.get object_id (OStr k) (dyn.of_registry r) = od.get k r.
Proof.
  induction r as [|[k' v] r IH]; simpl; [done|].
  rewrite IH. destruct (decide (k = k')) as [->|Hne].
  - by rewrite bool_decide_eq_true_2.
  - by rewrite bool_decide_eq_false_2.
Qed.

Lemma dyn_set_of_registry (k : string) (v : obj V) (r : list (string * obj V)) :
  dyn.set object_id (OStr k) v (dyn.of_registry r) = dyn.of_registry (od.set k v r).
Proof.
  induction r as [|[k' v'] r IH]; simpl; [done|].
  destruct (decide (k = k')) as [->|Hne].
  - by rewrite bool_decide_eq_true_2.
  - rewrite bool_decide_eq_false_2 by done. simpl. by rewrite <- IH.
Qed.

Lemma dyn_remove_of_registry (k : string) (r : list (string * obj V)) :
  dyn.remove object_id (OStr k) (dyn.of_registry r) = dyn.of_registry (od.remove k r).
Proof.
  induction r as [|[k' v'] r IH]; simpl; [done|].
  destruct (decide (k = k')) as [->|Hne].
  - by rewrite bool_decide_eq_true_2.
  - rewrite bool_decide_eq_false_2 by done. simpl. by rewrite <- IH.
Qed.

Lemma dyn_get_set {A} (n n' : string) (x : A) (c : list (obj V * A)) :
  dyn.get object_id (OStr n') (dyn.set object_id (OStr n) x c)
  = if decide (n = n') then Some x else dyn.get object_id (OStr n') c.
Proof.
  induction c as [|[k a] c IH]; cbn [dyn.set dyn.get].
  - rewrite key_eq_OStr_decide.
    destruct (decide (n = n')) as [->|Hne].
    + by rewrite bool_decide_eq_true_2.
    + rewrite bool_decide_eq_false_2; [done|]. by intros ->.
  - destruct (dyn.key_eq object_id (OStr n) k) eqn:Hk; cbn [dyn.get].
    + apply key_eq_OStr in Hk as ->. rewrite key_eq_OStr_decide.
      destruct (decide (n = n')) as [->|Hne].
      * by rewrite bool_decide_eq_true_2.
      * rewrite bool_decide_eq_false_2; [done|]. by intros ->.
    + rewrite IH. destruct (dyn.key_eq object_id (OStr n') k) eqn:Hk'; [|done].
      apply key_eq_OStr in Hk' as ->. rewrite key_eq_OStr_decide in Hk.
      apply bool_decide_eq_false in Hk. by rewrite decide_False.
Qed.

Lemma name_item_refines idx item name v :
  name_item d idx item = Ok (name, v) →
  dyn.name_item dd idx item = Ok (OStr name, v).
Proof.
  unfold name_item, dyn.name_item.
  destruct item as [| | |xs| | |];
    try (rewrite dd_spec; destruct (d idx _); simpl; [by intros [= -> ->]|done]).
  destruct xs as [|[] [|? [|]]]; try done. by intros [= -> ->].
Qed.

Lemma loop_body_refines st std idx item st' :
  same_state object_id st std →
  loop_body u d st idx item = Ok st' →
  ∃ std', dyn.loop_body object_id repr ud dd std idx item = Ok std' ∧ same_state object_id st' std'.
Proof.
  intros [Hret Hcnt] Hbody.
  apply loop_body_Ok in Hbody as (name & v & Hname%name_item_refines & Hc & Hcase).
  assert (∀ n, dyn.get object_id (OStr n)
                 (dyn.counter_update object_id (OStr name) (dyn.counter std))
               = counter st' !! n) as Hcnt'.
  { intros n. unfold dyn.counter_update. rewrite dyn_get_set, Hc, lookup_counter_update.
    by rewrite !Hcnt. }
  unfold dyn.loop_body. rewrite Hname. cbn [mbind result_bind dyn.hash_check dyn.unhashable].
  rewrite Hcnt.
  destruct Hcase as [(Hn & Hr & _)|[(prev & k1 & k2 & Hn & Hprev & Hk1 & Hk2 & Hr & _)
                                   |(cnt & k & Hn & Hne & Hk & Hr & _)]]; rewrite Hn.
  - eexists. split; [done|]. split; [|done]. simpl.
    by rewrite Hret, dyn_set_of_registry, Hr.
  - rewrite decide_True by done. unfold dyn.getitem, dyn.delitem.
    rewrite Hret, dyn_get_of_registry, Hprev. cbn [mbind result_bind].
    rewrite (ud_spec name prev 1), Hk1. cbn [fmap result_fmap mbind result_bind dyn.unhashable].
    rewrite dyn_set_of_registry, dyn_get_of_registry.
    assert (is_Some (od.get name (od.set k1 prev (ret_dict st)))) as [? ->].
    { apply od_get_Some, od_elem_of_keys_set. right. apply od_get_Some. by rewrite Hprev. }
    cbn [mbind result_bind]. change (1 + 1) with 2. rewrite (ud_spec name v 2), Hk2.
    cbn [fmap result_fmap mbind result_bind dyn.unhashable].
    eexists. split; [done|]. split; [|done]. simpl.
    by rewrite dyn_remove_of_registry, dyn_set_of_registry, Hr.
  - rewrite decide_False by done. cbn [mbind result_bind].
    rewrite (ud_spec name v (cnt + 1)), Hk. cbn [fmap result_fmap mbind result_bind dyn.unhashable].
    eexists. split; [done|]. split; [|done]. simpl.
    by rewrite Hret, dyn_set_of_registry, Hr.
Qed.

Lemma loop_refines st std idx xs st' :
  same_state object_id st std →
  loop u d st idx xs = Ok st' →
  ∃ std', dyn.loop object_id repr ud dd std idx xs = Ok std' ∧ same_state object_id st' std'.
Proof.
  revert st std idx. induction xs as [|x xs IH]; intros st std idx Hsame; simpl.
  - intros [= <-]. by exists std.
  - destruct (loop_body u d st idx x) as [st1|e] eqn:Hb; simpl; [|done].
    destruct (loop_body_refines _ _ _ _ _ Hsame Hb) as (std1 & -> & Hsame1).
    simpl. by apply IH.
Qed.

(** Whatever [_to_dict] returns on [str] names, the embedding on arbitrary
    names returns too. *)
Lemma _to_dict_refines (ds : obj V) reg :
  _to_dict u d ds = Ok reg →
  dyn._to_dict object_id repr ud dd ds = Ok (dyn.of_registry reg).
Proof.
  assert (same_state object_id init_state dyn.init_state) as Hinit.
  { split; [done|]. intros n. simpl. by rewrite lookup_empty. }
  assert (∀ xs,
    (st ← loop u d init_state 0 xs; Ok (ret_dict st)) = Ok reg →
    (st ← dyn.loop object_id repr ud dd dyn.init_state 0 xs; Ok (dyn.ret_dict st))
    = Ok (dyn.of_registry reg)) as Hloop.
  { intros xs. destruct (loop u d init_state 0 xs) as [st|e] eqn:Hl; simpl; [|done].
    intros [= <-]. destruct (loop_refines _ _ _ _ _ Hinit Hl) as (std & Hl' & [Hr _]).
    rewrite Hl'. simpl. by rewrite Hr. }
  destruct ds as [|z|s|xs|xs|o kvs|m]; unfold _to_dict, dyn._to_dict;
    try apply Hloop; by intros [= <-].
Qed.
End dyn_refinement.

Section dyn_claims.
Context {V : Type}.
Variable object_id : Metric V → N.
Variable repr : obj V → string.

(** C9, amended: a single item that is a 2-tuple [(n, v)] is unpacked; when
    [n] can be hashed the result is the one-entry registry [{n: v}], for a
    name of any type, and otherwise [TypeError] is raised. *)
Theorem normalizer_single_tuple
    (u : obj V → obj V → nat → result (obj V)) (d : nat → obj V → result (obj V))
    (n v : obj V) :
  dyn._to_dict object_id repr u d (OTuple [n; v])
  = match dyn.unhashable n with
    | None => Ok [(n, v)]
    | Some t => Raise (TypeError ("unhashable type: '" +:+ t +:+ "'"))
    end.
Proof.
  unfold dyn._to_dict. cbn [dyn.loop]. unfold dyn.loop_body, dyn.hash_check.
  cbn [dyn.name_item mbind result_bind]. by destruct (dyn.unhashable n).
Qed.
End dyn_claims.

(** [to_dict((1, 2))] is [{1: 2}] and [to_dict((None, 3))] is [{None: 3}]:
    the naming functions are not called. *)
Lemma normalizer_names_of_other_types
    (u : obj Z → obj Z → nat → result (obj Z)) (d : nat → obj Z → result (obj Z)) :
  dyn._to_dict (fun _ => 0%N) (fun _ => "") u d (OTuple [OInt 1; OInt 2])
  = Ok [(OInt 1, OInt 2)]
  ∧ dyn._to_dict (fun _ => 0%N) (fun _ => "") u d (OTuple [ONone; OInt 3])
    = Ok [(ONone, OInt 3)].
Proof. done. Qed.

(** C9 as stated fails: the pair [([], 2)] has a name that cannot be
    hashed, and line 65 raises [TypeError] for it. *)
Lemma normalizer_single_tuple_counterexample :
  ¬ (∀ (u : obj Z → obj Z → nat → result (obj Z)) (d : nat → obj Z → result (obj Z))
       (n v : obj Z),
       dyn._to_dict (fun _ => 0%N) (fun _ => "") u d (OTuple [n; v]) = Ok [(n, v)]).
Proof.
  intros Hclaim.
  specialize (Hclaim (fun _ _ _ => Ok ONone) (fun _ _ => Ok ONone) (OList []) (OInt 2)).
  discriminate Hclaim.
Qed.
